(** * TOTP viewer: URI parsing, code derivation, countdown and live refresh

    A shallow embedding of [src/utils/totp.ts] ([parseTotpUri],
    [generateTotpCode], [getTimeRemaining]) and of the refresh effect of
    [src/components/ValueDisplay.tsx].

    Conventions.
    - The wall clock [Date.now()] is an explicit argument [now : Z], in
      milliseconds since the Unix epoch.  [Math.floor (x / k)] on the
      integers the clock produces is [Z.div]; JavaScript's [%] is [Z.rem].
    - A JavaScript string is a [string]: the sequence of its UTF-8 bytes.
    - A byte sequence is a [list Z] of values in [0, 256).
    - A function that may throw returns an [option]; [None] is the throw. *)

From Stdlib Require Import ZArith List String Ascii Bool Lia.
Import ListNotations.
Open Scope Z_scope.

(** ** Bytes and characters *)

Module Bytes.

Definition code (c : ascii) : Z := Z.of_N (N_of_ascii c).
Definition char (b : Z) : ascii := ascii_of_N (Z.to_N b).

Definition of_string (s : string) : list Z := map code (list_ascii_of_string s).
Definition to_string (bs : list Z) : string := string_of_list_ascii (map char bs).

(** Big-endian encoding of [x] on [n] bytes (the low [8 n] bits of [x]). *)
Fixpoint be_bytes (n : nat) (x : Z) : list Z :=
  match n with
  | O => []
  | S m => be_bytes m (Z.shiftr x 8) ++ [x mod 256]
  end.

(** The unsigned integer a byte sequence denotes, most significant first. *)
Definition be_uint (bs : list Z) : Z :=
  fold_left (fun acc b => acc * 256 + b) bs 0.

Definition is_byte (b : Z) : Prop := 0 <= b < 256.

End Bytes.

(** ** SHA-1 (FIPS 180-4) on 32-bit words held in [Z] *)

Module SHA1.
Import Bytes.

Definition add32 (x y : Z) : Z := (x + y) mod 2 ^ 32.

Definition rotl (n x : Z) : Z :=
  Z.lor (Z.shiftl x n mod 2 ^ 32) (Z.shiftr x (32 - n)).

Definition not32 (x : Z) : Z := Z.lxor x 0xFFFFFFFF.

Definition f (t x y z : Z) : Z :=
  if t <? 20 then Z.lor (Z.land x y) (Z.land (not32 x) z)
  else if t <? 40 then Z.lxor (Z.lxor x y) z
  else if t <? 60 then Z.lor (Z.lor (Z.land x y) (Z.land x z)) (Z.land y z)
  else Z.lxor (Z.lxor x y) z.

Definition K (t : Z) : Z :=
  if t <? 20 then 0x5A827999
  else if t <? 40 then 0x6ED9EBA1
  else if t <? 60 then 0x8F1BBCDC
  else 0xCA62C1D6.

(** Message padding: a one bit, zeros, and the bit length on 8 bytes. *)
Definition pad (msg : list Z) : list Z :=
  let l := Z.of_nat (List.length msg) in
  msg ++ [0x80] ++ repeat 0 (Z.to_nat ((55 - l) mod 64)) ++ be_bytes 8 (8 * l).

Fixpoint words (n : nat) (bs : list Z) : list Z :=
  match n with
  | O => []
  | S m => be_uint (firstn 4 bs) :: words m (skipn 4 bs)
  end.

Fixpoint blocks (n : nat) (bs : list Z) : list (list Z) :=
  match n with
  | O => []
  | S m => words 16 (firstn 64 bs) :: blocks m (skipn 64 bs)
  end.

(** Message schedule; [w] holds the words so far, most recent first. *)
Fixpoint schedule (n : nat) (w : list Z) : list Z :=
  match n with
  | O => w
  | S m =>
      let x := Z.lxor (Z.lxor (nth 2 w 0) (nth 7 w 0))
                      (Z.lxor (nth 13 w 0) (nth 15 w 0)) in
      schedule m (rotl 1 x :: w)
  end.

Definition state : Type := Z * Z * Z * Z * Z.

Definition round (s : state * Z) (w : Z) : state * Z :=
  let '((a, b, c, d, e), t) := s in
  let tmp := add32 (add32 (add32 (add32 (rotl 5 a) (f t b c d)) e) (K t)) w in
  ((tmp, a, rotl 30 b, c, d), t + 1).

Definition compress (h : state) (block : list Z) : state :=
  let w := rev (schedule 64 (rev block)) in
  let '((a, b, c, d, e), _) := fold_left round w (h, 0) in
  let '(h0, h1, h2, h3, h4) := h in
  (add32 h0 a, add32 h1 b, add32 h2 c, add32 h3 d, add32 h4 e).

Definition init : state :=
  (0x67452301, 0xEFCDAB89, 0x98BADCFE, 0x10325476, 0xC3D2E1F0).

Definition serialize (h : state) : list Z :=
  let '(h0, h1, h2, h3, h4) := h in
  be_bytes 4 h0 ++ be_bytes 4 h1 ++ be_bytes 4 h2 ++ be_bytes 4 h3 ++ be_bytes 4 h4.

Definition digest (msg : list Z) : list Z :=
  let p := pad msg in
  serialize (fold_left compress (blocks (List.length p / 64)%nat p) init).

End SHA1.

(** ** HMAC (RFC 2104) over SHA-1 *)

Module HMAC.

Definition block_size : nat := 64.

Definition normalize (key : list Z) : list Z :=
  let k := if (block_size <? List.length key)%nat then SHA1.digest key else key in
  k ++ repeat 0 (block_size - List.length k)%nat.

Definition hmac_sha1 (key msg : list Z) : list Z :=
  let k := normalize key in
  let ipad := map (Z.lxor 0x36) k in
  let opad := map (Z.lxor 0x5c) k in
  SHA1.digest (opad ++ SHA1.digest (ipad ++ msg)).

End HMAC.

(** ** JavaScript string and number primitives the program uses *)

Module JS.
Import Bytes.

(** [s.startsWith(p)] *)
Definition startsWith (s p : string) : bool := String.prefix p s.

(** [s.substring(n)]: [s] without its first [n] characters. *)
Fixpoint substring (n : nat) (s : string) : string :=
  match n, s with
  | O, _ => s
  | S _, EmptyString => EmptyString
  | S m, String _ r => substring m r
  end.

Definition upper (c : ascii) : ascii :=
  let n := code c in
  if (97 <=? n) && (n <=? 122) then char (n - 32) else c.

(** [s.toUpperCase()] on the ASCII letters. *)
Fixpoint toUpperCase (s : string) : string :=
  match s with
  | EmptyString => EmptyString
  | String c r => String (upper c) (toUpperCase r)
  end.

Definition digit_char (d : Z) : ascii := char (48 + d).

Fixpoint decimal (fuel : nat) (n : Z) (acc : string) : string :=
  match fuel with
  | O => acc
  | S k =>
      let acc' := String (digit_char (n mod 10)) acc in
      if n / 10 =? 0 then acc' else decimal k (n / 10) acc'
  end.

(** [String(n)] for an integer [0 <= n < 10^21], the range in which
    JavaScript prints an integer in positional decimal notation. *)
Definition Number_toString (n : Z) : string := decimal 21 n EmptyString.

Fixpoint replicate (n : nat) (c : ascii) : string :=
  match n with
  | O => EmptyString
  | S m => String c (replicate m c)
  end.

(** [s.padStart(n, c)] for a one-character filler. *)
Definition padStart (s : string) (n : nat) (c : ascii) : string :=
  (replicate (n - String.length s) c ++ s)%string.

Definition is_digit (c : ascii) : bool :=
  let n := code c in (48 <=? n) && (n <=? 57).

Fixpoint all_digits (s : string) : bool :=
  match s with
  | EmptyString => true
  | String c r => is_digit c && all_digits r
  end.

End JS.

(** ** Base32 secret decoder *)

Module Base32.
Import Bytes.

Definition is_space (c : ascii) : bool :=
  let n := code c in (n =? 32) || ((9 <=? n) && (n <=? 13)).

Fixpoint strip_space (s : list ascii) : list ascii :=
  match s with
  | [] => []
  | c :: r => if is_space c then strip_space r else c :: strip_space r
  end.

(** Removes a leading run of [=]; applied to the reversed text it strips
    the padding. *)
Fixpoint drop_pad (s : list ascii) : list ascii :=
  match s with
  | [] => []
  | c :: r => if code c =? 61 then drop_pad r else s
  end.

(** Index of a character in the RFC 4648 alphabet [A-Z2-7]. *)
Definition readChar (c : ascii) : option Z :=
  let n := code c in
  if (65 <=? n) && (n <=? 90) then Some (n - 65)
  else if (50 <=? n) && (n <=? 55) then Some (n - 24)
  else None.

(** The bit accumulator: [value] holds [bits] pending bits, [bits < 8]. *)
Fixpoint decode_loop (s : list ascii) (value bits : Z) : option (list Z) :=
  match s with
  | [] => Some []
  | c :: r =>
      match readChar c with
      | None => None
      | Some v =>
          let value := value * 32 + v in
          let bits := bits + 5 in
          if 8 <=? bits then
            match decode_loop r (value mod 2 ^ (bits - 8)) (bits - 8) with
            | None => None
            | Some out => Some (Z.shiftr value (bits - 8) mod 256 :: out)
            end
          else decode_loop r value bits
      end
  end.

(** Modelled from the spec: the secret decoder ([keyDecoder] of
    [@otplib/plugin-base32-enc-dec]), a package outside the sources.
    Section 4.1: RFC 4648 alphabet, case-insensitive, optional [=] padding;
    fails on a character outside the alphabet after stripping padding and
    whitespace; decodes the available 5-bit groups and discards incomplete
    trailing bits. *)
Definition keyDecoder (secret : string) : option (list Z) :=
  let cs := strip_space (list_ascii_of_string (JS.toUpperCase secret)) in
  decode_loop (rev (drop_pad (rev cs))) 0 0.

End Base32.

(** ** The one-time-password library *)

Module Otplib.
Import Bytes.

(** The options [generateTotpCode] sets, with the library's default
    [step]. *)
Record AuthenticatorOptions : Type := {
  digits : Z;
  epoch : Z;
  step : Z
}.

(** Modelled from the spec: the default [step] of [@otplib/core]
    (section 4.3): the window length, a fixed constant of 30 seconds. *)
Definition default_step : Z := 30.

(** Modelled from the spec: the time-step counter of [@otplib/core]
    (section 3, TimeStep): [floor (unixTimeSeconds / 30)], with [epoch]
    in milliseconds. *)
Definition totpCounter (epoch step : Z) : Z := epoch / (step * 1000).

(** Modelled from the spec: section 4.4 step 1, the counter as an 8-byte
    big-endian integer. *)
Definition hotpCounter (counter : Z) : list Z := be_bytes 8 counter.

(** Modelled from the spec: section 4.4 step 2, the keyed digest
    ([createDigest] of [@otplib/plugin-crypto-js]). *)
Definition hotpDigest (key : list Z) (counter : Z) : list Z :=
  HMAC.hmac_sha1 key (hotpCounter counter).

(** Modelled from the spec: section 4.4 steps 3 and 4, dynamic truncation
    of [@otplib/core], with the bit operations of an implementation on
    32-bit integers. *)
Definition truncate (digest : list Z) : Z :=
  let offset := Z.land (last digest 0) 0xf in
  let byte i := nth (Z.to_nat (offset + i)) digest 0 in
  Z.lor (Z.shiftl (Z.land (byte 0) 0x7f) 24)
    (Z.lor (Z.shiftl (Z.land (byte 1) 0xff) 16)
       (Z.lor (Z.shiftl (Z.land (byte 2) 0xff) 8)
          (Z.land (byte 3) 0xff))).

(** Modelled from the spec: section 4.4 step 5, reduction modulo
    [10^digits] and zero padding on the left. *)
Definition hotpToken (key : list Z) (counter digits : Z) : string :=
  let token := truncate (hotpDigest key counter) mod 10 ^ digits in
  JS.padStart (JS.Number_toString token) (Z.to_nat digits) "0"%char.

(** Modelled from the spec: [Authenticator.generate] of [@otplib/core],
    a package outside the sources.  Sections 4.1 and 4.4: decode the
    Base32 secret, a decoding failure being a derivation failure, then
    derive the code of the time step of [epoch]. *)
Definition generate (o : AuthenticatorOptions) (secret : string) : option string :=
  match Base32.keyDecoder secret with
  | None => None
  | Some key => Some (hotpToken key (totpCounter (epoch o) (step o)) (digits o))
  end.

End Otplib.

(** ** [src/utils/totp.ts]: code generation and countdown *)

(** [generateTotpCode(secret, next)] at wall-clock time [now].  The
    [try]/[catch] turns a throw of the library into [null]. *)
Definition generateTotpCode (now : Z) (secret : string) (next : bool) : option string :=
  let options := {|
    Otplib.digits := 6;
    Otplib.epoch := now + (if next then 30000 else 0);
    Otplib.step := Otplib.default_step
  |} in
  Otplib.generate options secret.

(** [getTimeRemaining()] at wall-clock time [now]. *)
Definition getTimeRemaining (now : Z) : Z :=
  30 - Z.rem (now / 1000) 30.

(** ** The web platform: [URL], [URLSearchParams], [decodeURIComponent]

    The fragment of the WHATWG URL Standard that [parseTotpUri] reaches:
    an absolute URL with a non-special scheme followed by [//] and a plain
    host.  Strings are handled as lists of characters. *)

Module Web.
Import Bytes.

Definition chars : Type := list ascii.

Definition is_char (c : ascii) (d : ascii) : bool := code c =? code d.

Definition between (lo hi : Z) (c : ascii) : bool :=
  (lo <=? code c) && (code c <=? hi).

Definition is_alpha (c : ascii) : bool := between 65 90 c || between 97 122 c.
Definition is_alnum (c : ascii) : bool := is_alpha c || between 48 57 c.

Definition lower (c : ascii) : ascii :=
  if between 65 90 c then char (code c + 32) else c.

Definition hex_value (c : ascii) : option Z :=
  if between 48 57 c then Some (code c - 48)
  else if between 65 70 c then Some (code c - 55)
  else if between 97 102 c then Some (code c - 87)
  else None.

Definition hex_digit (d : Z) : ascii :=
  if d <? 10 then char (48 + d) else char (55 + d).

(** Percent-encoding of one byte, with upper-case hexadecimal digits. *)
Definition percent_encode (in_set : ascii -> bool) (c : ascii) : chars :=
  if in_set c then ["%"%char; hex_digit (code c / 16); hex_digit (code c mod 16)]
  else [c].

Definition one_of (s : string) (c : ascii) : bool :=
  existsb (is_char c) (list_ascii_of_string s).

Definition c0_control_set (c : ascii) : bool :=
  (code c <=? 31) || (126 <? code c).

(** Character 34 is the double quote. *)
Definition query_set (c : ascii) : bool :=
  c0_control_set c || (code c =? 34) || one_of " #<>" c.

Definition path_set (c : ascii) : bool :=
  query_set c || one_of "?^`{}" c.

(** The forbidden host code points. *)
Definition forbidden_host (c : ascii) : bool :=
  (code c =? 0) || between 9 10 c || (code c =? 13) || one_of " #/:<>?@[\]^|" c.

Fixpoint drop_while (p : ascii -> bool) (l : chars) : chars :=
  match l with
  | [] => []
  | c :: r => if p c then drop_while p r else l
  end.

(** Leading and trailing C0 controls and spaces are removed. *)
Definition trim (l : chars) : chars :=
  let sp c := code c <=? 32 in
  rev (drop_while sp (rev (drop_while sp l))).

(** Tabs and newlines are removed everywhere. *)
Definition remove_tab_newline (l : chars) : chars :=
  filter (fun c => negb (between 9 10 c || (code c =? 13))) l.

(** Scheme state: [buf] is the scheme so far, reversed. *)
Fixpoint scheme_state (l buf : chars) : option (chars * chars) :=
  match l with
  | [] => None
  | c :: r =>
      if is_alnum c || one_of "+-." c then scheme_state r (lower c :: buf)
      else if is_char c ":" then Some (rev buf, r)
      else None
  end.

Definition scheme_start_state (l : chars) : option (chars * chars) :=
  match l with
  | c :: r => if is_alpha c then scheme_state r [lower c] else None
  | [] => None
  end.

Definition is_special (scheme : chars) : bool :=
  existsb (String.eqb (string_of_list_ascii scheme))
    ["ftp"; "file"; "http"; "https"; "ws"; "wss"]%string.

(** Splits at the first character satisfying [p], which starts the
    second part. *)
Fixpoint break (p : ascii -> bool) (l : chars) : chars * chars :=
  match l with
  | [] => ([], [])
  | c :: r => if p c then ([], l) else let '(a, b) := break p r in (c :: a, b)
  end.

Definition eq_nocase (a : chars) (b : string) : bool :=
  String.eqb (string_of_list_ascii (map lower a)) b.

Definition single_dot (seg : chars) : bool :=
  eq_nocase seg "." || eq_nocase seg "%2e".

Definition double_dot (seg : chars) : bool :=
  eq_nocase seg ".." || eq_nocase seg ".%2e" || eq_nocase seg "%2e." ||
  eq_nocase seg "%2e%2e".

(** End of a path segment: [buf] is the segment, reversed; [path] the
    segments so far, last first; [slash] tells whether a [/] ended it. *)
Definition push_segment (buf : chars) (path : list chars) (slash : bool) : list chars :=
  let seg := rev buf in
  if double_dot seg then (if slash then tl path else [] :: tl path)
  else if single_dot seg then (if slash then path else [] :: path)
  else seg :: path.

(** Path state, up to the [?] or [#] that ends the path. *)
Fixpoint path_state (l buf : chars) (path : list chars) : list chars * chars :=
  match l with
  | [] => (push_segment buf path false, [])
  | c :: r =>
      if is_char c "/" then path_state r [] (push_segment buf path true)
      else if one_of "?#" c then (push_segment buf path false, l)
      else path_state r (rev (percent_encode path_set c) ++ buf) path
  end.

(** Path start state, after the host. *)
Definition path_start_state (l : chars) : list chars * chars :=
  match l with
  | c :: r => if is_char c "/" then path_state r [] [] else ([], l)
  | [] => ([], [])
  end.

(** Query state: [l] starts at the [?], if there is a query. *)
Definition query_state (l : chars) : option chars :=
  match l with
  | c :: r =>
      if is_char c "?" then
        Some (flat_map (percent_encode query_set) (fst (break (fun d => is_char d "#") r)))
      else None
  | [] => None
  end.

(** The components of a parsed URL that the program reads. *)
Record URL : Type := {
  protocol : string;
  hostname : string;
  pathname : string;
  search : string
}.

Definition serialize_path (path : list chars) : chars :=
  flat_map (fun seg => "/"%char :: seg) (rev path).

Definition serialize_search (query : option chars) : chars :=
  match query with
  | None | Some [] => []
  | Some q => "?"%char :: q
  end.

(** [new URL(input)] without a base URL.  [None] is the [TypeError] of a
    string that does not parse; it is also the answer outside the
    fragment modelled here (a special scheme, no [//] after the scheme,
    credentials, a port or an IPv6 literal), which [parseTotpUri] does
    not reach. *)
Definition new_URL (input : string) : option URL :=
  let l := remove_tab_newline (trim (list_ascii_of_string input)) in
  match scheme_start_state l with
  | None => None
  | Some (scheme, rest) =>
      if is_special scheme then None else
      match rest with
      | c1 :: c2 :: rest' =>
          if is_char c1 "/" && is_char c2 "/" then
            let '(host, rest'') := break (one_of "/?#") rest' in
            if existsb forbidden_host host then None else
            let '(path, rest''') := path_start_state rest'' in
            Some {|
              protocol := string_of_list_ascii (scheme ++ [":"%char]);
              hostname := string_of_list_ascii (flat_map (percent_encode c0_control_set) host);
              pathname := string_of_list_ascii (serialize_path path);
              search := string_of_list_ascii (serialize_search (query_state rest'''))
            |}
          else None
      | _ => None
      end
  end.

(** Percent-decoding of the URL Standard: a [%] that two hexadecimal
    digits do not follow stands for itself. *)
Fixpoint percent_decode (l : chars) : chars :=
  match l with
  | [] => []
  | c :: r =>
      if is_char c "%" then
        match r with
        | h :: (d :: r') as r0 =>
            match hex_value h, hex_value d with
            | Some a, Some b => char (16 * a + b) :: percent_decode r'
            | _, _ => c :: percent_decode r0
            end
        | _ => c :: percent_decode r
        end
      else c :: percent_decode r
  end.

(** First byte of a multi-byte UTF-8 sequence: the number of bytes that
    follow and the range of the next one. *)
Definition utf8_lead (b : Z) : option (nat * Z * Z) :=
  if (0xC2 <=? b) && (b <=? 0xDF) then Some (1%nat, 0x80, 0xBF)
  else if (0xE0 <=? b) && (b <=? 0xEF) then
    Some (2%nat, if b =? 0xE0 then 0xA0 else 0x80, if b =? 0xED then 0x9F else 0xBF)
  else if (0xF0 <=? b) && (b <=? 0xF4) then
    Some (3%nat, if b =? 0xF0 then 0x90 else 0x80, if b =? 0xF4 then 0x8F else 0xBF)
  else None.

(** U+FFFD, in UTF-8. *)
Definition replacement : chars := [char 0xEF; char 0xBF; char 0xBD].

(** UTF-8 decoding with replacement, on the byte level: well-formed
    sequences pass, each error yields U+FFFD.  [needed] bytes are awaited,
    the next one in [lower, upper]; [pending] is the sequence so far,
    reversed. *)
Fixpoint utf8_decode (l : chars) (needed : nat) (lower upper : Z) (pending : chars) : chars :=
  match l with
  | [] => match needed with O => [] | S _ => replacement end
  | c :: r =>
      let b := code c in
      let start :=
        if b <? 0x80 then c :: utf8_decode r 0 0x80 0xBF []
        else match utf8_lead b with
             | Some (n, lo, hi) => utf8_decode r n lo hi [c]
             | None => replacement ++ utf8_decode r 0 0x80 0xBF []
             end in
      match needed with
      | O => start
      | S n =>
          if (lower <=? b) && (b <=? upper) then
            match n with
            | O => rev (c :: pending) ++ utf8_decode r 0 0x80 0xBF []
            | S _ => utf8_decode r n 0x80 0xBF (c :: pending)
            end
          else replacement ++ start
      end
  end.

Fixpoint split (sep : ascii) (l : chars) : list chars :=
  match l with
  | [] => [[]]
  | c :: r =>
      if is_char c sep then [] :: split sep r
      else match split sep r with
           | s :: ss => (c :: s) :: ss
           | [] => [[c]]
           end
  end.

Definition form_decode (l : chars) : string :=
  let spaced := map (fun c => if is_char c "+" then " "%char else c) l in
  string_of_list_ascii (utf8_decode (percent_decode spaced) 0 0x80 0xBF []).

Definition parse_pair (l : chars) : string * string :=
  let '(name, value) := break (fun c => is_char c "=") l in
  (form_decode name, form_decode (tl value)).

Definition URLSearchParams : Type := list (string * string).

(** [new URLSearchParams(init)] for a string. *)
Definition new_URLSearchParams (init : string) : URLSearchParams :=
  let l := list_ascii_of_string init in
  let l := match l with c :: r => if is_char c "?" then r else l | [] => l end in
  map parse_pair (filter (fun s => negb (Nat.eqb (List.length s) 0)) (split "&" l)).

(** [params.get(name)]: the first value of that name, or [null]. *)
Fixpoint get (params : URLSearchParams) (name : string) : option string :=
  match params with
  | [] => None
  | (n, v) :: r => if String.eqb n name then Some v else get r name
  end.

(** First pass of [decodeURIComponent]: every [%] must start an escape
    of two hexadecimal digits.  An item is a byte and whether an escape
    produced it. *)
Fixpoint unescape (l : chars) : option (list (bool * Z)) :=
  match l with
  | [] => Some []
  | c :: r =>
      if is_char c "%" then
        match r with
        | h :: d :: r' =>
            match hex_value h, hex_value d with
            | Some a, Some b => option_map (cons (true, 16 * a + b)) (unescape r')
            | _, _ => None
            end
        | _ => None
        end
      else option_map (cons (false, code c)) (unescape r)
  end.

(** Second pass: an escaped byte above 127 must start a well-formed
    UTF-8 sequence made of escapes. *)
Fixpoint escapes_utf8 (l : list (bool * Z)) (needed : nat) (lower upper : Z) : option chars :=
  match l with
  | [] => match needed with O => Some [] | S _ => None end
  | (esc, b) :: r =>
      match needed with
      | O =>
          if negb esc || (b <? 0x80) then
            option_map (cons (char b)) (escapes_utf8 r 0 0x80 0xBF)
          else match utf8_lead b with
               | Some (n, lo, hi) => option_map (cons (char b)) (escapes_utf8 r n lo hi)
               | None => None
               end
      | S n =>
          if esc && (lower <=? b) && (b <=? upper) then
            option_map (cons (char b)) (escapes_utf8 r n 0x80 0xBF)
          else None
      end
  end.

(** [decodeURIComponent(s)]; [None] is the [URIError]. *)
Definition decodeURIComponent (s : string) : option string :=
  match unescape (list_ascii_of_string s) with
  | None => None
  | Some items => option_map string_of_list_ascii (escapes_utf8 items 0 0x80 0xBF)
  end.

End Web.

(** ** [src/utils/totp.ts]: the URI parser *)

Record TotpData : Type := {
  secret : string;
  label : option string;
  issuer : option string
}.

(** Truthiness of a [string | null]: [null] and the empty string are
    falsy. *)
Definition truthy (v : option string) : bool :=
  match v with
  | None => false
  | Some s => negb (String.eqb s EmptyString)
  end.

(** [parseTotpUri(uri)].  The [try]/[catch] turns a throw of [new URL]
    or of [decodeURIComponent] into [null]. *)
Definition parseTotpUri (uri : string) : option TotpData :=
  if negb (JS.startsWith uri "otpauth://totp/") then None else
  match Web.new_URL uri with
  | None => None
  | Some url =>
      let params := Web.new_URLSearchParams (Web.search url) in
      match Web.get params "secret" with
      | None => None
      | Some secret =>
          if negb (truthy (Some secret)) then None else
          match Web.decodeURIComponent (JS.substring 7 (Web.pathname url)) with
          | None => None
          | Some label =>
              let issuer := Web.get params "issuer" in
              Some {| secret := secret;
                      label := Some label;
                      issuer := if truthy issuer then issuer else None |}
          end
      end
  end.

(** ** [src/components/ValueDisplay.tsx]: the refresh effect *)

Module ValueDisplay.

(** The state of one mounted display: the two [useState] cells, the
    interval timer of the effect, and a log of the derivations.
    [interval] is [None] when no timer is registered; otherwise it holds
    the secret its callback closes over.  [derived] is instrumentation:
    the times of the calls to [generateTotpCode], latest first. *)
Record state : Type := {
  totpCode : option string;
  timeRemaining : Z;
  interval : option string;
  derived : list Z
}.

(** [useState(null)], [useState(30)], no timer. *)
Definition initial : state :=
  {| totpCode := None; timeRemaining := 30; interval := None; derived := [] |}.

(** [if (code) setTotpCode(code); else setTotpCode('Error');] *)
Definition displayed (code : option string) : option string :=
  if truthy code then code else Some "Error"%string.

(** The body of [useEffect] when [value] is shown.  It reads the clock
    twice: [now] is the reading of [generateTotpCode], [now'] the later
    one of [getTimeRemaining]. *)
Definition effect (value : string) (now now' : Z) (st : state) : state :=
  if negb (JS.startsWith value "otpauth://totp/") then st else
  match parseTotpUri value with
  | None => st
  | Some totpData =>
      let code := generateTotpCode now (secret totpData) false in
      let remainingTime := getTimeRemaining now' in
      {| totpCode := displayed code;
         timeRemaining := remainingTime;
         interval := Some (secret totpData);
         derived := now :: derived st |}
  end.

(** The [setInterval] callback, fired at time [now].  Its reading of
    the clock for the code follows the one for the countdown and is
    made only when the countdown reads 30: both lie in the same window
    unless the callback takes 29 seconds, and are taken as one. *)
Definition tick (now : Z) (st : state) : state :=
  match interval st with
  | None => st
  | Some secret =>
      let newTimeRemaining := getTimeRemaining now in
      if newTimeRemaining =? 30 then
        let newCode := generateTotpCode now secret false in
        {| totpCode := displayed newCode;
           timeRemaining := newTimeRemaining;
           interval := interval st;
           derived := now :: derived st |}
      else
        {| totpCode := totpCode st;
           timeRemaining := newTimeRemaining;
           interval := interval st;
           derived := derived st |}
  end.

(** The cleanup of the effect: [clearInterval(intervalId)]. *)
Definition cleanup (st : state) : state :=
  {| totpCode := totpCode st;
     timeRemaining := timeRemaining st;
     interval := None;
     derived := derived st |}.

(** [n] ticks of a simulated timer, one every 1000 ms after [now]. *)
Fixpoint ticks (n : nat) (now : Z) (st : state) : state :=
  match n with
  | O => st
  | S m => ticks m (now + 1000) (tick (now + 1000) st)
  end.

End ValueDisplay.

(** ** The specification's vocabulary *)

Module Spec.
Import Bytes.

(** TimeStep: [floor (unixTimeSeconds / 30)]. *)
Definition currentStep (now : Z) : Z := now / 1000 / 30.

(** Dynamic truncation in the words of section 4.4: the offset is the
    low 4 bits of the last byte; the 4 bytes from the offset, the most
    significant bit of the first one cleared, as a big-endian integer. *)
Definition dynamic_truncation (digest : list Z) : Z :=
  let o := last digest 0 mod 16 in
  match firstn 4 (skipn (Z.to_nat o) digest) with
  | b :: rest => be_uint (b mod 128 :: rest)
  | [] => 0
  end.

(** The six decimal digits of [n], most significant first. *)
Definition six_digits (n : Z) : string :=
  string_of_list_ascii
    (map (fun k => JS.digit_char (n / 10 ^ k mod 10)) [5; 4; 3; 2; 1; 0]).

(** The standard TOTP code of key [K] at time step [counter]. *)
Definition totp (K : list Z) (counter : Z) : string :=
  six_digits
    (dynamic_truncation (HMAC.hmac_sha1 K (be_bytes 8 counter)) mod 10 ^ 6).

(** The [secret] query parameter of a URI as the platform reads it:
    [None] when the URI does not parse or carries no such parameter. *)
Definition secret_parameter (uri : string) : option string :=
  match Web.new_URL uri with
  | None => None
  | Some url => Web.get (Web.new_URLSearchParams (Web.search url)) "secret"
  end.

(** The text [parseTotpUri] decodes into the label: the path of the URI
    without its first 7 characters. *)
Definition label_source (uri : string) : option string :=
  option_map (fun url => JS.substring 7 (Web.pathname url)) (Web.new_URL uri).

End Spec.

(** ** [src/components/ValueDisplay.tsx]: what is shown and copied *)

Module Display.
Import ValueDisplay.

Definition isUrl (value : string) : bool :=
  JS.startsWith value "http://" || JS.startsWith value "https://".

Definition isTotpUri (value : string) : bool :=
  JS.startsWith value "otpauth://totp/".

(** The code block of the markup, [isTotpUri && totpCode && (...)]: the
    code and the countdown on screen, if any. *)
Definition shown (value : string) (st : state) : option (string * Z) :=
  match totpCode st with
  | Some code =>
      if isTotpUri value && truthy (Some code) then Some (code, timeRemaining st)
      else None
  | None => None
  end.

(** [handleCopyTotpCode]: the text handed to the clipboard, if any. *)
Definition handleCopyTotpCode (st : state) : option string :=
  match totpCode st with
  | Some code =>
      if negb (truthy (Some code)) || String.eqb code "Error" then None
      else Some code
  | None => None
  end.

(** What happens to a mounted display: [value] is shown (on mount, or
    when the property changes: the cleanup of the previous effect runs,
    then the effect, with its two readings of the clock), the timer
    fires, the display is unmounted. *)
Inductive event : Type :=
  | Show (value : string) (now now' : Z)
  | Tick (now : Z)
  | Unmount.

Definition step (st : state) (e : event) : state :=
  match e with
  | Show value now now' => effect value now now' (cleanup st)
  | Tick now => tick now st
  | Unmount => cleanup st
  end.

Definition run (events : list event) (st : state) : state :=
  fold_left step events st.

(** The clock reading that sets the countdown. *)
Definition time_of (e : event) : Z :=
  match e with
  | Show _ _ now' => now'
  | Tick now => now
  | Unmount => 0
  end.

(** A code a display may hold: none, the error marker, or six decimal
    digits. *)
Definition code_ok (c : option string) : Prop :=
  c = None \/ c = Some "Error"%string \/
  exists d, c = Some d /\ String.length d = 6%nat /\ JS.all_digits d = true.

Definition display_inv (st : state) : Prop :=
  code_ok (totpCode st) /\ 1 <= timeRemaining st <= 30.

End Display.

(** ** Letters and digits in a URI *)

Module Plain.
Import Web.

(** All that the URL parser, the query parser and the decoders ask of
    a character, true of every ASCII letter and digit. *)
Definition plain_facts (c : ascii) : bool :=
  negb (Bytes.code c <=? 32) &&
  negb (between 9 10 c || (Bytes.code c =? 13)) &&
  negb (is_char c "/") && negb (one_of "?#" c) && negb (one_of "/?#" c) &&
  negb (path_set c) && negb (query_set c) &&
  negb (is_char c "#") && negb (is_char c "&") && negb (is_char c "=") &&
  negb (is_char c "+") && negb (is_char c "%") &&
  (Bytes.code c <? 0x80) &&
  negb (Ascii.eqb (lower c) ".") && negb (Ascii.eqb (lower c) "%") &&
  Ascii.eqb (Bytes.char (Bytes.code c)) c.

(** A text of ASCII letters and digits. *)
Definition alnum (s : string) : bool :=
  forallb is_alnum (list_ascii_of_string s).

End Plain.

(** ** [src/lib/storage.ts] *)

Module Storage.

Record QRCodeData : Type := {
  id : string;
  value : string;
  description : string;
  timestamp : Z;
  format : string
}.

(** [Partial<QRCodeData>]: the properties present. *)
Record updates : Type := {
  u_id : option string;
  u_value : option string;
  u_description : option string;
  u_timestamp : option Z;
  u_format : option string
}.

(** [{ ...code, ...updates }] *)
Definition merge (code : QRCodeData) (u : updates) : QRCodeData :=
  let pick {A : Type} (o : option A) (d : A) := match o with Some v => v | None => d end in
  {| id := pick (u_id u) (id code);
     value := pick (u_value u) (value code);
     description := pick (u_description u) (description code);
     timestamp := pick (u_timestamp u) (timestamp code);
     format := pick (u_format u) (format code) |}.

(** A text as [JSON.parse] sees it: the empty string, a text it
    rejects, or the JSON of an array of code records.  [JSON.stringify]
    of an array of records yields a text that parses back to the array;
    the model keeps the array.  Texts of other JSON values are outside
    the model: the program writes none. *)
Inductive text : Type :=
  | Empty
  | Invalid
  | Json (codes : list QRCodeData).

(** The browser's [localStorage]: the item under the key [qrCodes], and
    whether [setItem] throws for lack of space. *)
Record localStorage : Type := {
  qrCodes : option text;
  quota_exceeded : bool
}.

(** [localStorage.setItem(STORAGE_KEY, t)]; [None] is the throw. *)
Definition setItem (t : text) (ls : localStorage) : option localStorage :=
  if quota_exceeded ls then None
  else Some {| qrCodes := Some t; quota_exceeded := quota_exceeded ls |}.

(** [saveQRCodes(codes)]: the [catch] swallows a failed write. *)
Definition saveQRCodes (codes : list QRCodeData) (ls : localStorage) : localStorage :=
  match setItem (Json codes) ls with
  | Some ls' => ls'
  | None => ls
  end.

(** [loadQRCodes()]: a missing or empty item, or one that does not
    parse, gives the empty array. *)
Definition loadQRCodes (ls : localStorage) : list QRCodeData :=
  match qrCodes ls with
  | Some (Json codes) => codes
  | Some Empty | Some Invalid | None => []
  end.

Definition addQRCode (code : QRCodeData) (ls : localStorage) : list QRCodeData * localStorage :=
  let codes := loadQRCodes ls in
  let updatedCodes := code :: codes in
  (updatedCodes, saveQRCodes updatedCodes ls).

Definition updateQRCode (i : string) (u : updates) (ls : localStorage) : list QRCodeData * localStorage :=
  let codes := loadQRCodes ls in
  let updatedCodes := map (fun code => if String.eqb (id code) i then merge code u else code) codes in
  (updatedCodes, saveQRCodes updatedCodes ls).

Definition deleteQRCode (i : string) (ls : localStorage) : list QRCodeData * localStorage :=
  let codes := loadQRCodes ls in
  let updatedCodes := filter (fun code => negb (String.eqb (id code) i)) codes in
  (updatedCodes, saveQRCodes updatedCodes ls).

(** [clearQRCodes()]: [removeItem]. *)
Definition clearQRCodes (ls : localStorage) : localStorage :=
  {| qrCodes := None; quota_exceeded := quota_exceeded ls |}.

(** What [exportQRCodes] does: an alert, or the download of a file. *)
Inductive exported : Type :=
  | Alert (message : string)
  | Download (filename : string) (content : text).

(** [exportQRCodes()]; [today] is [new Date().toISOString().slice(0, 10)].
    The file holds [JSON.stringify(codes, null, 2)]. *)
Definition exportQRCodes (today : string) (ls : localStorage) : exported :=
  let codes := loadQRCodes ls in
  if Nat.eqb (List.length codes) 0 then Alert "No QR codes to export"
  else Download ("qrcode-export-" ++ today ++ ".json") (Json codes).

(** [new Set(values).has(v)] *)
Definition has (values : list string) (v : string) : bool :=
  existsb (String.eqb v) values.

(** [importQRCodes(jsonData)]: a text that does not parse leaves
    everything as it is. *)
Definition importQRCodes (jsonData : text) (ls : localStorage) : list QRCodeData * localStorage :=
  match jsonData with
  | Json importedCodes =>
      let existingCodes := loadQRCodes ls in
      let existingValues := map value existingCodes in
      let uniqueImportedCodes :=
        filter (fun code => negb (has existingValues (value code))) importedCodes in
      let combinedCodes := existingCodes ++ uniqueImportedCodes in
      (combinedCodes, saveQRCodes combinedCodes ls)
  | Empty | Invalid => (loadQRCodes ls, ls)
  end.

End Storage.

(** ** [src/components/BarcodeRenderer.tsx] *)

Module BarcodeRenderer.

(** [BarcodeFormatType] of [src/types.ts]. *)
Inductive BarcodeFormatType : Type :=
  | CODE39 | CODE128 | CODE128A | CODE128B | CODE128C
  | EAN13 | EAN8 | EAN5 | EAN2 | UPC | UPCE | ITF14 | ITF
  | MSI | MSI10 | MSI11 | MSI1010 | MSI1110
  | pharmacode | codabar | GenericBarcode.

Definition qrCodeFormats : list string :=
  ["qr_code"; "micro_qr_code"; "rm_qr_code"]%string.

Definition linearBarcodeFormats : list string :=
  ["code_128"; "code_39"; "code_93"; "ean_13"; "ean_8"; "upc_a"; "upc_e";
   "codabar"; "itf"]%string.

Definition formatMap : list (string * BarcodeFormatType) :=
  [("code_128", CODE128); ("code_39", CODE39); ("code_93", CODE128);
   ("ean_13", EAN13); ("ean_8", EAN8); ("upc_a", UPC); ("upc_e", UPCE);
   ("codabar", codabar); ("itf", ITF)]%string.

(** [list.includes(s)] *)
Definition includes (l : list string) (s : string) : bool :=
  existsb (String.eqb s) l.

(** [formatMap[key]] for the keys the table owns. *)
Fixpoint lookup (m : list (string * BarcodeFormatType)) (key : string) : option BarcodeFormatType :=
  match m with
  | [] => None
  | (k, v) :: r => if String.eqb k key then Some v else lookup r key
  end.

(** The element rendered; [num] is the type of the size properties. *)
Inductive element (num : Type) : Type :=
  | QRCodeSVG (value : string) (size : num)
  | Barcode (value : string) (format : BarcodeFormatType) (width height : num)
      (displayValue : bool) (margin : Z).

Arguments QRCodeSVG {num} value size.
Arguments Barcode {num} value format width height displayValue margin.

(** [BarcodeRenderer({ code, qrSize, linearWidth, linearHeight })] *)
Definition BarcodeRenderer {num : Type} (code : Storage.QRCodeData)
    (qrSize linearWidth linearHeight : num) : element num :=
  if includes qrCodeFormats (Storage.format code) then
    QRCodeSVG (Storage.value code) qrSize
  else if includes linearBarcodeFormats (Storage.format code) then
    let format := match lookup formatMap (Storage.format code) with
                  | Some f => f
                  | None => CODE128
                  end in
    Barcode (Storage.value code) format linearWidth linearHeight true 0
  else Barcode (Storage.value code) CODE128 linearWidth linearHeight true 0.

End BarcodeRenderer.

(** ** [String.prototype.trim] *)

Module Trim.
Import Bytes.

(** White space and line terminators of one, two and three UTF-8
    bytes: TAB, LF, VT, FF, CR, SP; U+00A0; U+1680, U+2000 to U+200A,
    U+2028, U+2029, U+202F, U+205F, U+3000 and U+FEFF. *)
Definition space1 (a : ascii) : bool :=
  ((9 <=? code a) && (code a <=? 13)) || (code a =? 32).

Definition space2 (a b : ascii) : bool :=
  (code a =? 0xC2) && (code b =? 0xA0).

Definition space3 (a b c : ascii) : bool :=
  ((code a =? 0xE1) && (code b =? 0x9A) && (code c =? 0x80)) ||
  ((code a =? 0xE2) && (code b =? 0x80) &&
   (((0x80 <=? code c) && (code c <=? 0x8A)) ||
    (code c =? 0xA8) || (code c =? 0xA9) || (code c =? 0xAF))) ||
  ((code a =? 0xE2) && (code b =? 0x81) && (code c =? 0x9F)) ||
  ((code a =? 0xE3) && (code b =? 0x80) && (code c =? 0x80)) ||
  ((code a =? 0xEF) && (code b =? 0xBB) && (code c =? 0xBF)).

Fixpoint trimStart (l : list ascii) : list ascii :=
  match l with
  | a :: r1 =>
      if space1 a then trimStart r1 else
      match r1 with
      | b :: r2 =>
          if space2 a b then trimStart r2 else
          match r2 with
          | c :: r3 => if space3 a b c then trimStart r3 else l
          | [] => l
          end
      | [] => l
      end
  | [] => []
  end.

(** The same on the reversed text, whose characters come last byte
    first. *)
Fixpoint trimEnd_rev (l : list ascii) : list ascii :=
  match l with
  | c :: r1 =>
      if space1 c then trimEnd_rev r1 else
      match r1 with
      | b :: r2 =>
          if space2 b c then trimEnd_rev r2 else
          match r2 with
          | a :: r3 => if space3 a b c then trimEnd_rev r3 else l
          | [] => l
          end
      | [] => l
      end
  | [] => []
  end.

(** [s.trim()] *)
Definition trim (s : string) : string :=
  string_of_list_ascii
    (rev (trimEnd_rev (rev (trimStart (list_ascii_of_string s))))).

(** A text that does not begin with a white space character of one
    byte. *)
Definition head_ok (l : list ascii) : Prop :=
  match l with
  | a :: _ => space1 a = false
  | [] => True
  end.

End Trim.

(** ** [src/App.tsx] *)

Module App.
Import Storage.

(** The properties of [IDetectedBarcode] the program reads. *)
Record IDetectedBarcode : Type := {
  rawValue : string;
  detectedFormat : string
}.

Record toast : Type := {
  title : string;
  message : string;
  variant : string
}.

(** The [useState] cells of [App], and the toasts raised, latest
    first. *)
Record state : Type := {
  isScanning : bool;
  codes : list QRCodeData;
  editingId : option string;
  editDescription : string;
  isImporting : bool;
  showManualEntry : bool;
  manualValue : string;
  manualFormat : string;
  toasts : list toast
}.

Definition world : Type := state * localStorage.

Definition initial : state :=
  {| isScanning := false; codes := []; editingId := None;
     editDescription := ""; isImporting := false; showManualEntry := false;
     manualValue := ""; manualFormat := "qr_code"; toasts := [] |}.

Definition setQrCodes (l : list QRCodeData) (st : state) : state :=
  {| isScanning := isScanning st; codes := l; editingId := editingId st;
     editDescription := editDescription st; isImporting := isImporting st;
     showManualEntry := showManualEntry st; manualValue := manualValue st;
     manualFormat := manualFormat st; toasts := toasts st |}.

Definition setIsScanning (b : bool) (st : state) : state :=
  {| isScanning := b; codes := codes st; editingId := editingId st;
     editDescription := editDescription st; isImporting := isImporting st;
     showManualEntry := showManualEntry st; manualValue := manualValue st;
     manualFormat := manualFormat st; toasts := toasts st |}.

Definition setEditingId (i : option string) (st : state) : state :=
  {| isScanning := isScanning st; codes := codes st; editingId := i;
     editDescription := editDescription st; isImporting := isImporting st;
     showManualEntry := showManualEntry st; manualValue := manualValue st;
     manualFormat := manualFormat st; toasts := toasts st |}.

Definition setEditDescription (d : string) (st : state) : state :=
  {| isScanning := isScanning st; codes := codes st; editingId := editingId st;
     editDescription := d; isImporting := isImporting st;
     showManualEntry := showManualEntry st; manualValue := manualValue st;
     manualFormat := manualFormat st; toasts := toasts st |}.

Definition setIsImporting (b : bool) (st : state) : state :=
  {| isScanning := isScanning st; codes := codes st; editingId := editingId st;
     editDescription := editDescription st; isImporting := b;
     showManualEntry := showManualEntry st; manualValue := manualValue st;
     manualFormat := manualFormat st; toasts := toasts st |}.

Definition setShowManualEntry (b : bool) (st : state) : state :=
  {| isScanning := isScanning st; codes := codes st; editingId := editingId st;
     editDescription := editDescription st; isImporting := isImporting st;
     showManualEntry := b; manualValue := manualValue st;
     manualFormat := manualFormat st; toasts := toasts st |}.

Definition setManualValue (v : string) (st : state) : state :=
  {| isScanning := isScanning st; codes := codes st; editingId := editingId st;
     editDescription := editDescription st; isImporting := isImporting st;
     showManualEntry := showManualEntry st; manualValue := v;
     manualFormat := manualFormat st; toasts := toasts st |}.

Definition setManualFormat (f : string) (st : state) : state :=
  {| isScanning := isScanning st; codes := codes st; editingId := editingId st;
     editDescription := editDescription st; isImporting := isImporting st;
     showManualEntry := showManualEntry st; manualValue := manualValue st;
     manualFormat := f; toasts := toasts st |}.

Definition raise (t d v : string) (st : state) : state :=
  {| isScanning := isScanning st; codes := codes st; editingId := editingId st;
     editDescription := editDescription st; isImporting := isImporting st;
     showManualEntry := showManualEntry st; manualValue := manualValue st;
     manualFormat := manualFormat st;
     toasts := {| title := t; message := d; variant := v |} :: toasts st |}.

(** The effect run on mount: [setQrCodes(Storage.loadQRCodes())]. *)
Definition mount (w : world) : world :=
  let '(st, ls) := w in (setQrCodes (loadQRCodes ls) st, ls).

(** [handleScan(detectedCodes)] at time [now]. *)
Definition handleScan (detectedCodes : list IDetectedBarcode) (now : Z) (w : world) : world :=
  let '(st, ls) := w in
  match detectedCodes with
  | detectedCode :: _ =>
      let newCode := {| id := JS.Number_toString now;
                        value := rawValue detectedCode;
                        description := "";
                        timestamp := now;
                        format := detectedFormat detectedCode |} in
      let '(updatedCodes, ls') := addQRCode newCode ls in
      (setIsScanning false (setQrCodes updatedCodes st), ls')
  | [] => w
  end.

Definition startEditing (i d : string) (w : world) : world :=
  let '(st, ls) := w in (setEditDescription d (setEditingId (Some i) st), ls).

Definition saveDescription (i : string) (w : world) : world :=
  let '(st, ls) := w in
  let u := {| u_id := None; u_value := None;
              u_description := Some (editDescription st);
              u_timestamp := None; u_format := None |} in
  let '(updatedCodes, ls') := updateQRCode i u ls in
  (setEditingId None (setQrCodes updatedCodes st), ls').

Definition cancelEditing (w : world) : world :=
  let '(st, ls) := w in (setEditingId None st, ls).

Definition deleteCode (i : string) (w : world) : world :=
  let '(st, ls) := w in
  let '(updatedCodes, ls') := deleteQRCode i ls in
  (setQrCodes updatedCodes st, ls').

(** An entry of the array a file holds: a record whose [timestamp] is
    a number or is not one ([None]: absent, or of another type).
    Entries that are not records, and records whose other properties are
    not strings, are outside the model. *)
Record entry : Type := {
  e_id : string;
  e_value : string;
  e_description : string;
  e_timestamp : option Z;
  e_format : string
}.

(** What [JSON.parse] makes of the text of a file: nothing to parse, a
    syntax error, a value that is not an array, or an array. *)
Inductive file : Type :=
  | NoContent
  | NotJson
  | NotArray
  | Entries (parsedData : list entry).

(** [!item.id || !item.value || typeof item.timestamp !== 'number'] *)
Definition invalid_entry (item : entry) : bool :=
  String.eqb (e_id item) "" || String.eqb (e_value item) "" ||
  match e_timestamp item with
  | Some _ => false
  | None => true
  end.

(** The record an entry is to the storage; the default is never read,
    as the storage is handed valid entries only. *)
Definition code_of (item : entry) : QRCodeData :=
  {| id := e_id item;
     value := e_value item;
     description := e_description item;
     timestamp := match e_timestamp item with Some t => t | None => 0 end;
     format := e_format item |}.

(** [handleImport(file)], the read of the file taken to complete before
    anything else happens; [content] is the text read, as parsed. *)
Definition handleImport (content : file) (w : world) : world :=
  let '(st, ls) := w in
  let failed m := (setIsImporting false (raise "Import Failed" m "destructive" st), ls) in
  match content with
  | NoContent => failed "Failed to read file"%string
  | NotJson => failed "Invalid JSON file format"%string
  | NotArray => failed "Invalid data format: Expected an array of codes"%string
  | Entries parsedData =>
      if negb (Nat.eqb (List.length (filter invalid_entry parsedData)) 0) then
        failed "Some entries in the file have an invalid format"%string
      else
        let '(importedCodes, ls') := importQRCodes (Json (map code_of parsedData)) ls in
        let newCodesCount :=
          Z.of_nat (List.length importedCodes) - Z.of_nat (List.length (codes st)) in
        let st' := setQrCodes importedCodes st in
        let st'' :=
          if 0 <? newCodesCount then
            raise "Import Successful"
              ("Added " ++ JS.Number_toString newCodesCount ++ " new codes to your collection.")
              "default" st'
          else
            raise "Import Complete"
              "No new codes were added. All codes already exist in your collection."
              "default" st' in
        (setIsImporting false st'', ls')
  end.

(** [handleManualAdd()] at time [now]. *)
Definition handleManualAdd (now : Z) (w : world) : world :=
  let '(st, ls) := w in
  if String.eqb (Trim.trim (manualValue st)) "" then
    (raise "Error" "Please enter a value" "destructive" st, ls)
  else
    let newCode := {| id := JS.Number_toString now;
                      value := Trim.trim (manualValue st);
                      description := "";
                      timestamp := now;
                      format := manualFormat st |} in
    let '(updatedCodes, ls') := addQRCode newCode ls in
    (raise "Code Added" "Your code has been saved" "default"
       (setManualFormat "qr_code"
          (setManualValue ""
             (setShowManualEntry false (setQrCodes updatedCodes st)))), ls').

(** What the user and the scanner do to a mounted [App]. *)
Inductive event : Type :=
  | Scan (detectedCodes : list IDetectedBarcode) (now : Z)
  | OpenScanner
  | CloseScanner
  | Edit (i d : string)
  | TypeDescription (d : string)
  | Save (i : string)
  | Cancel
  | Delete (i : string)
  | Import (content : file)
  | OpenManualEntry
  | CloseManualEntry
  | TypeValue (v : string)
  | SelectFormat (f : string)
  | Add (now : Z).

Definition step (w : world) (e : event) : world :=
  match e with
  | Scan d now => handleScan d now w
  | OpenScanner => (setIsScanning true (fst w), snd w)
  | CloseScanner => (setIsScanning false (fst w), snd w)
  | Edit i d => startEditing i d w
  | TypeDescription d => (setEditDescription d (fst w), snd w)
  | Save i => saveDescription i w
  | Cancel => cancelEditing w
  | Delete i => deleteCode i w
  | Import content => handleImport content w
  | OpenManualEntry => (setShowManualEntry true (fst w), snd w)
  | CloseManualEntry => (setShowManualEntry false (fst w), snd w)
  | TypeValue v => (setManualValue v (fst w), snd w)
  | SelectFormat f => (setManualFormat f (fst w), snd w)
  | Add now => handleManualAdd now w
  end.

Definition run (events : list event) (w : world) : world :=
  fold_left step events w.

(** The list on screen is the list the storage holds, and the
    storage accepts writes. *)
Definition in_sync (w : world) : Prop :=
  codes (fst w) = loadQRCodes (snd w) /\ quota_exceeded (snd w) = false.

End App.
(** * Verification *)

(** ** Bit operations as arithmetic *)

Section BitArithmetic.
Import Bytes.

Lemma land_shiftl_low (hi lo k : Z) :
  0 <= k -> 0 <= lo < 2 ^ k -> Z.land (Z.shiftl hi k) lo = 0.
Proof.
  intros Hk Hlo. apply Z.bits_inj'. intros n Hn.
  rewrite Z.land_spec, Z.bits_0.
  destruct (Z.lt_ge_cases n k) as [Hlt | Hge].
  - rewrite Z.shiftl_spec_low by lia. reflexivity.
  - rewrite <- (Z.mod_small lo (2 ^ k)) by lia.
    rewrite Z.mod_pow2_bits_high by lia. apply andb_false_r.
Qed.

Lemma lor_shiftl_add (hi lo k : Z) :
  0 <= k -> 0 <= lo < 2 ^ k -> Z.lor (Z.shiftl hi k) lo = hi * 2 ^ k + lo.
Proof.
  intros Hk Hlo.
  rewrite <- Z.lxor_lor by (apply land_shiftl_low; assumption).
  rewrite <- Z.add_nocarry_lxor by (apply land_shiftl_low; assumption).
  rewrite Z.shiftl_mul_pow2 by assumption. reflexivity.
Qed.

Lemma land_low_mask (a k : Z) : 0 <= k -> Z.land a (2 ^ k - 1) = a mod 2 ^ k.
Proof.
  intros Hk. rewrite <- Z.land_ones by assumption.
  rewrite Z.ones_equiv. reflexivity.
Qed.

(** The four-byte read of the truncation, bit operations against
    positional arithmetic. *)
Lemma lor_bytes (a b c d : Z) :
  is_byte b -> is_byte c -> is_byte d ->
  Z.lor (Z.shiftl (Z.land a 0x7f) 24)
    (Z.lor (Z.shiftl (Z.land b 0xff) 16)
       (Z.lor (Z.shiftl (Z.land c 0xff) 8) (Z.land d 0xff)))
  = be_uint [a mod 128; b; c; d].
Proof.
  unfold is_byte. intros Hb Hc Hd.
  change 0x7f with (2 ^ 7 - 1). change 0xff with (2 ^ 8 - 1).
  rewrite !land_low_mask by lia.
  change (2 ^ 7) with 128. change (2 ^ 8) with 256.
  rewrite (Z.mod_small b), (Z.mod_small c), (Z.mod_small d) by lia.
  rewrite (lor_shiftl_add c d 8) by lia.
  rewrite (lor_shiftl_add b _ 16) by lia.
  rewrite (lor_shiftl_add _ _ 24) by lia.
  unfold be_uint. simpl fold_left. lia.
Qed.

End BitArithmetic.

(** ** Shape of a digest *)

Section DigestShape.
Import Bytes.

Lemma be_bytes_length (n : nat) (x : Z) : List.length (be_bytes n x) = n.
Proof.
  revert x. induction n as [| n IH]; intros x; simpl.
  - reflexivity.
  - rewrite length_app, IH. simpl. lia.
Qed.

Lemma be_bytes_bytes (n : nat) (x : Z) : Forall is_byte (be_bytes n x).
Proof.
  revert x. induction n as [| n IH]; intros x; simpl.
  - constructor.
  - apply Forall_app. split; [apply IH |].
    constructor; [| constructor]. unfold is_byte. apply Z.mod_pos_bound. lia.
Qed.

Lemma serialize_length (h : SHA1.state) : List.length (SHA1.serialize h) = 20%nat.
Proof.
  destruct h as [[[[h0 h1] h2] h3] h4]. unfold SHA1.serialize.
  rewrite !length_app, !be_bytes_length. reflexivity.
Qed.

Lemma serialize_bytes (h : SHA1.state) : Forall is_byte (SHA1.serialize h).
Proof.
  destruct h as [[[[h0 h1] h2] h3] h4]. unfold SHA1.serialize.
  rewrite !Forall_app. repeat split; apply be_bytes_bytes.
Qed.

Lemma hmac_length (key msg : list Z) : List.length (HMAC.hmac_sha1 key msg) = 20%nat.
Proof. apply serialize_length. Qed.

Lemma hmac_bytes (key msg : list Z) : Forall is_byte (HMAC.hmac_sha1 key msg).
Proof. apply serialize_bytes. Qed.

Lemma firstn_4_nth (l : list Z) :
  (4 <= List.length l)%nat ->
  firstn 4 l = [nth 0 l 0; nth 1 l 0; nth 2 l 0; nth 3 l 0].
Proof.
  destruct l as [| a [| b [| c [| d l]]]]; simpl; intros H; try lia.
  reflexivity.
Qed.

Lemma nth_skipn_add (o i : nat) (l : list Z) :
  nth i (skipn o l) 0 = nth (o + i) l 0.
Proof.
  revert l. induction o as [| o IH]; intros l; simpl.
  - reflexivity.
  - destruct l as [| a l]; simpl.
    + destruct i; reflexivity.
    + apply IH.
Qed.

Lemma nth_byte (l : list Z) (i : nat) :
  Forall is_byte l -> (i < List.length l)%nat -> is_byte (nth i l 0).
Proof.
  intros Hl Hi. rewrite Forall_forall in Hl. apply Hl. apply nth_In. exact Hi.
Qed.

(** The library's truncation reads the integer the specification
    describes, and that integer fits in 31 bits. *)
Lemma truncate_dynamic (digest : list Z) :
  List.length digest = 20%nat -> Forall is_byte digest ->
  Otplib.truncate digest = Spec.dynamic_truncation digest /\
  0 <= Spec.dynamic_truncation digest < 2 ^ 31.
Proof.
  intros Hlen Hbytes.
  unfold Otplib.truncate, Spec.dynamic_truncation.
  change 0xf with (2 ^ 4 - 1). rewrite land_low_mask by lia.
  change (2 ^ 4) with 16.
  set (o := last digest 0 mod 16).
  assert (Ho : 0 <= o < 16) by (apply Z.mod_pos_bound; lia).
  rewrite firstn_4_nth by (rewrite length_skipn; lia).
  rewrite !nth_skipn_add.
  replace (Z.to_nat (o + 0)) with (Z.to_nat o + 0)%nat by lia.
  replace (Z.to_nat (o + 1)) with (Z.to_nat o + 1)%nat by lia.
  replace (Z.to_nat (o + 2)) with (Z.to_nat o + 2)%nat by lia.
  replace (Z.to_nat (o + 3)) with (Z.to_nat o + 3)%nat by lia.
  assert (H1 : is_byte (nth (Z.to_nat o + 1) digest 0)) by (apply nth_byte; [assumption | lia]).
  assert (H2 : is_byte (nth (Z.to_nat o + 2) digest 0)) by (apply nth_byte; [assumption | lia]).
  assert (H3 : is_byte (nth (Z.to_nat o + 3) digest 0)) by (apply nth_byte; [assumption | lia]).
  split.
  - apply lor_bytes; assumption.
  - unfold is_byte in *. unfold be_uint. simpl fold_left.
    pose proof (Z.mod_pos_bound (nth (Z.to_nat o + 0) digest 0) 128 ltac:(lia)).
    lia.
Qed.

End DigestShape.

(** ** Decimal printing *)

Section Decimal.
Import Bytes.

Lemma digit_char_digit (d : Z) : 0 <= d < 10 -> JS.is_digit (JS.digit_char d) = true.
Proof.
  intros H.
  assert (C : d = 0 \/ d = 1 \/ d = 2 \/ d = 3 \/ d = 4 \/ d = 5 \/ d = 6 \/
              d = 7 \/ d = 8 \/ d = 9) by lia.
  repeat (destruct C as [-> | C]; [reflexivity |]). subst d. reflexivity.
Qed.

Lemma six_digits_length (n : Z) : String.length (Spec.six_digits n) = 6%nat.
Proof. reflexivity. Qed.

Lemma six_digits_all_digits (n : Z) : JS.all_digits (Spec.six_digits n) = true.
Proof.
  unfold Spec.six_digits. cbn [map string_of_list_ascii JS.all_digits].
  rewrite !digit_char_digit by (apply Z.mod_pos_bound; lia).
  reflexivity.
Qed.

(** [String(n).padStart(6, '0')] writes the six decimal digits of [n]. *)
Lemma padStart_six_digits (n : Z) :
  0 <= n < 10 ^ 6 ->
  JS.padStart (JS.Number_toString n) 6 "0"%char = Spec.six_digits n.
Proof.
  intros Hn. change (10 ^ 6) with 1000000 in Hn.
  unfold Spec.six_digits. cbn [map].
  change (10 ^ 0) with 1. change (10 ^ 1) with 10. change (10 ^ 2) with (10 * 10).
  change (10 ^ 3) with (10 * 10 * 10). change (10 ^ 4) with (10 * 10 * 10 * 10).
  change (10 ^ 5) with (10 * 10 * 10 * 10 * 10).
  rewrite Z.div_1_r. rewrite <- !Z.div_div by lia.
  set (n1 := n / 10). set (n2 := n1 / 10). set (n3 := n2 / 10).
  set (n4 := n3 / 10). set (n5 := n4 / 10).
  assert (H5 : n5 / 10 = 0).
  { subst n5 n4 n3 n2 n1. rewrite !Z.div_div by lia. apply Z.div_small. lia. }
  assert (B1 : 0 <= n1) by (apply Z.div_pos; lia).
  assert (B2 : 0 <= n2) by (apply Z.div_pos; lia).
  assert (B3 : 0 <= n3) by (apply Z.div_pos; lia).
  assert (B4 : 0 <= n4) by (apply Z.div_pos; lia).
  assert (B5 : 0 <= n5) by (apply Z.div_pos; lia).
  assert (Z0 : forall m, m = 0 -> m / 10 = 0) by (intros m ->; reflexivity).
  unfold JS.Number_toString, JS.padStart.
  cbn [JS.decimal]. fold n1. fold n2. fold n3. fold n4. fold n5.
  rewrite H5. cbn [Z.eqb].
  destruct (Z.eqb_spec n1 0) as [E1 | E1];
  [| destruct (Z.eqb_spec n2 0) as [E2 | E2];
  [| destruct (Z.eqb_spec n3 0) as [E3 | E3];
  [| destruct (Z.eqb_spec n4 0) as [E4 | E4];
  [| destruct (Z.eqb_spec n5 0) as [E5 | E5]]]]];
  cbn [String.length Nat.sub JS.replicate String.append string_of_list_ascii].
  - assert (n2 = 0) by (subst n2; auto). assert (n3 = 0) by (subst n3; auto).
    assert (n4 = 0) by (subst n4; auto). assert (n5 = 0) by (subst n5; auto).
    rewrite E1. replace n2 with 0. replace n3 with 0. replace n4 with 0. replace n5 with 0.
    reflexivity.
  - assert (n3 = 0) by (subst n3; auto).
    assert (n4 = 0) by (subst n4; auto). assert (n5 = 0) by (subst n5; auto).
    replace n3 with 0. replace n4 with 0. replace n5 with 0. rewrite E2.
    reflexivity.
  - assert (n4 = 0) by (subst n4; auto). assert (n5 = 0) by (subst n5; auto).
    replace n4 with 0. replace n5 with 0. rewrite E3. reflexivity.
  - assert (n5 = 0) by (subst n5; auto).
    replace n5 with 0. rewrite E4. reflexivity.
  - rewrite E5. reflexivity.
  - reflexivity.
Qed.

End Decimal.

(** ** Code generation *)

Lemma currentStep_counter (epoch : Z) :
  Otplib.totpCounter epoch Otplib.default_step = Spec.currentStep epoch.
Proof.
  unfold Otplib.totpCounter, Otplib.default_step, Spec.currentStep.
  rewrite Z.div_div by lia. reflexivity.
Qed.

Lemma hotpToken_totp (K : list Z) (counter : Z) :
  Otplib.hotpToken K counter 6 = Spec.totp K counter.
Proof.
  unfold Otplib.hotpToken, Spec.totp, Otplib.hotpDigest, Otplib.hotpCounter.
  destruct (truncate_dynamic (HMAC.hmac_sha1 K (Bytes.be_bytes 8 counter))
              (hmac_length _ _) (hmac_bytes _ _)) as [-> _].
  change (Z.to_nat 6) with 6%nat.
  apply padStart_six_digits. apply Z.mod_pos_bound. lia.
Qed.

(** What [generateTotpCode] returns, in the specification's vocabulary. *)
Lemma generateTotpCode_spec (now : Z) (secret : string) (next : bool) :
  generateTotpCode now secret next =
  option_map
    (fun K => Spec.totp K (Spec.currentStep (now + (if next then 30000 else 0))))
    (Base32.keyDecoder secret).
Proof.
  unfold generateTotpCode, Otplib.generate. simpl.
  destruct (Base32.keyDecoder secret) as [K |]; simpl; [| reflexivity].
  rewrite currentStep_counter, hotpToken_totp. reflexivity.
Qed.

(** C1: for a secret that Base32-decodes to the key [K], the call at
    time [now] succeeds and returns the standard TOTP code: HMAC-SHA-1
    keyed by [K] over the 8-byte big-endian counter
    [floor (now / 30 s)], dynamically truncated to a 31-bit integer,
    reduced modulo [10^6] and written on exactly six decimal digits. *)
Theorem generateTotpCode_standard (secret : string) (K : list Z) (now : Z) :
  Base32.keyDecoder secret = Some K ->
  let digest := HMAC.hmac_sha1 K (Bytes.be_bytes 8 (now / 1000 / 30)) in
  let code := Spec.six_digits (Spec.dynamic_truncation digest mod 10 ^ 6) in
  generateTotpCode now secret false = Some code /\
  0 <= Spec.dynamic_truncation digest < 2 ^ 31 /\
  String.length code = 6%nat /\
  JS.all_digits code = true.
Proof.
  intros HK digest code. repeat split.
  - rewrite generateTotpCode_spec, HK. simpl. rewrite Z.add_0_r. reflexivity.
  - apply (truncate_dynamic digest (hmac_length _ _) (hmac_bytes _ _)).
  - apply (truncate_dynamic digest (hmac_length _ _) (hmac_bytes _ _)).
  - apply six_digits_all_digits.
Qed.

Lemma generateTotpCode_standard_witness :
  Base32.keyDecoder "GEZDGNBVGY3TQOJQGEZDGNBVGY3TQOJQ"
    = Some (Bytes.of_string "12345678901234567890") /\
  generateTotpCode 59000 "GEZDGNBVGY3TQOJQGEZDGNBVGY3TQOJQ" false = Some "287082"%string.
Proof.
  split; [reflexivity |].
  destruct (generateTotpCode_standard "GEZDGNBVGY3TQOJQGEZDGNBVGY3TQOJQ"
              (Bytes.of_string "12345678901234567890") 59000 eq_refl) as [H _].
  rewrite H. vm_compute. reflexivity.
Defined.

Lemma currentStep_next (now : Z) :
  Spec.currentStep (now + 30000) = Spec.currentStep now + 1.
Proof.
  unfold Spec.currentStep. rewrite !Z.div_div by lia.
  change (1000 * 30) with 30000.
  replace (now + 30000) with (now + 1 * 30000) by lia.
  apply Z.div_add. lia.
Qed.

(** C4: with [next = true] the code is the one of time step
    [currentStep + 1]; advancing the epoch by 30000 ms and incrementing
    the step counter by one are the same computation at every instant,
    failure of the decoder included. *)
Theorem generateTotpCode_next (secret : string) (now : Z) :
  generateTotpCode now secret true =
    option_map (fun K => Spec.totp K (Spec.currentStep now + 1))
      (Base32.keyDecoder secret) /\
  generateTotpCode now secret true = generateTotpCode (now + 30000) secret false.
Proof.
  rewrite !generateTotpCode_spec. rewrite Z.add_0_r, currentStep_next.
  split; reflexivity.
Qed.

(** ** Countdown *)

Lemma getTimeRemaining_mod (now : Z) :
  0 <= now -> getTimeRemaining now = 30 - (now / 1000) mod 30.
Proof.
  intros H. unfold getTimeRemaining.
  rewrite Z.rem_mod_nonneg; [reflexivity | apply Z.div_pos; lia | lia].
Qed.

Lemma getTimeRemaining_pos (now : Z) : 0 <= now -> 0 < getTimeRemaining now <= 30.
Proof.
  intros H. rewrite getTimeRemaining_mod by assumption.
  pose proof (Z.mod_pos_bound (now / 1000) 30 ltac:(lia)). lia.
Qed.

Lemma getTimeRemaining_period (now : Z) :
  0 <= now -> getTimeRemaining (now + 30000) = getTimeRemaining now.
Proof.
  intros H. rewrite !getTimeRemaining_mod by lia.
  replace (now + 30000) with (now + 30 * 1000) by lia.
  rewrite Z.div_add by lia.
  replace (now / 1000 + 30) with (now / 1000 + 1 * 30) by lia.
  rewrite Z.mod_add by lia. reflexivity.
Qed.

(** C3: at every Unix time the countdown is
    [30 - (floor seconds mod 30)], an integer in (0, 30]; it is never 0,
    it is 30 at a window boundary, it is the same for two instants of the
    same whole second, and it has period 30 seconds. *)
Theorem getTimeRemaining_window (now : Z) :
  0 <= now ->
  getTimeRemaining now = 30 - (now / 1000) mod 30 /\
  0 < getTimeRemaining now <= 30 /\
  getTimeRemaining now <> 0 /\
  ((now / 1000) mod 30 = 0 -> getTimeRemaining now = 30) /\
  (forall now', now' / 1000 = now / 1000 ->
     getTimeRemaining now' = getTimeRemaining now) /\
  getTimeRemaining (now + 30000) = getTimeRemaining now.
Proof.
  intros H. pose proof (getTimeRemaining_pos now H) as B.
  repeat split; try lia.
  - apply getTimeRemaining_mod; assumption.
  - intros E. rewrite getTimeRemaining_mod by assumption. lia.
  - intros now' E. unfold getTimeRemaining. rewrite E. reflexivity.
  - apply getTimeRemaining_period; assumption.
Qed.

Lemma getTimeRemaining_window_witness :
  getTimeRemaining 1700000012345 = 28 /\ getTimeRemaining 1700000010000 = 30.
Proof.
  destruct (getTimeRemaining_window 1700000012345 ltac:(lia)) as [E _].
  destruct (getTimeRemaining_window 1700000010000 ltac:(lia)) as (_ & _ & _ & B & _).
  split; [rewrite E; reflexivity | apply B; reflexivity].
Defined.

(** The countdown is not always below 30. *)
Lemma getTimeRemaining_not_below_30 :
  ~ (forall now, 0 <= now -> 0 <= getTimeRemaining now < 30).
Proof.
  intros H. specialize (H 30000 ltac:(lia)).
  change (getTimeRemaining 30000) with 30 in H. lia.
Qed.

(** The range of the countdown. *)
Lemma getTimeRemaining_bounds (now : Z) :
  0 <= now -> 1 <= getTimeRemaining now <= 30.
Proof.
  intros H. pose proof (getTimeRemaining_pos now H). lia.
Qed.

(** C8: the code against the range [0, 30) that the claim and the
    comment of [getTimeRemaining] ("0-29") give.  At 30000 ms, and at
    every window boundary [30000 k] ms, the function returns 30, which is
    not below 30. *)
Theorem getTimeRemaining_at_boundary :
  getTimeRemaining 30000 = 30 /\
  ~ (0 <= getTimeRemaining 30000 < 30) /\
  (forall k : nat, getTimeRemaining (30000 * Z.of_nat k) = 30).
Proof.
  split; [reflexivity |]. split.
  - change (getTimeRemaining 30000) with 30. lia.
  - intros k. rewrite getTimeRemaining_mod by lia.
    replace (30000 * Z.of_nat k) with (30 * Z.of_nat k * 1000) by lia.
    rewrite Z.div_mul by lia.
    replace (30 * Z.of_nat k) with (Z.of_nat k * 30) by lia.
    rewrite Z.mod_mul by lia. reflexivity.
Qed.

(** ** The URI parser *)

Section Parser.
Import Web.

Lemma startsWith_append (s p : string) :
  JS.startsWith s p = true -> exists r, s = (p ++ r)%string.
Proof.
  unfold JS.startsWith. revert s.
  induction p as [| c p IH]; intros s H; simpl in *.
  - exists s. reflexivity.
  - destruct s as [| d s]; [discriminate |]. simpl in H.
    revert H. destruct (Ascii.ascii_dec c d) as [-> | N]; intros H; [| discriminate].
    destruct (IH s H) as [r ->]. exists r. reflexivity.
Qed.

Lemma list_ascii_of_string_app (a b : string) :
  list_ascii_of_string (a ++ b) = list_ascii_of_string a ++ list_ascii_of_string b.
Proof. induction a as [| c a IH]; simpl; [reflexivity | rewrite IH; reflexivity]. Qed.

Lemma drop_while_app_stop (p : ascii -> bool) (a b : chars) (c : ascii) :
  p c = false ->
  exists a', drop_while p (a ++ c :: b) = a' ++ c :: b.
Proof.
  intros Hc. induction a as [| x a IH]; simpl.
  - rewrite Hc. exists []. reflexivity.
  - destruct (p x).
    + exact IH.
    + exists (x :: a). reflexivity.
Qed.

(** Trimming keeps a prefix that starts and ends with a visible
    character. *)
Lemma trim_keeps (c : ascii) (m : chars) (d : ascii) (r : chars) :
  (Bytes.code c <=? 32) = false -> (Bytes.code d <=? 32) = false ->
  exists r', trim (c :: m ++ d :: r) = c :: m ++ d :: r'.
Proof.
  intros Hc Hd. unfold trim. simpl drop_while. rewrite Hc.
  replace (rev (c :: m ++ d :: r)) with (rev r ++ d :: rev (c :: m)).
  2:{ change (c :: m ++ d :: r) with ((c :: m) ++ d :: r).
      rewrite rev_app_distr. simpl. rewrite <- !app_assoc. reflexivity. }
  destruct (drop_while_app_stop (fun x => Bytes.code x <=? 32) (rev r)
              (rev (c :: m)) d Hd) as [a' ->].
  exists (rev a').
  rewrite rev_app_distr. simpl rev at 1. rewrite rev_app_distr, rev_involutive.
  simpl. rewrite <- !app_assoc. reflexivity.
Qed.

(** Behind the prefix guard the URL always parses, with host [totp]:
    the path, query and fragment states of the URL parser have no
    failure. *)
Lemma new_URL_prefixed (uri : string) :
  JS.startsWith uri "otpauth://totp/" = true ->
  exists url, new_URL uri = Some url /\ hostname url = "totp"%string /\
              protocol url = "otpauth:"%string.
Proof.
  intros H. destruct (startsWith_append _ _ H) as [rest ->].
  unfold new_URL. rewrite list_ascii_of_string_app.
  set (r := list_ascii_of_string rest).
  change (list_ascii_of_string "otpauth://totp/" ++ r)
    with ("o"%char :: list_ascii_of_string "tpauth://totp" ++ "/"%char :: r).
  destruct (trim_keeps "o" (list_ascii_of_string "tpauth://totp") "/" r
              eq_refl eq_refl) as [r' ->].
  simpl app. unfold remove_tab_newline. simpl filter.
  set (r'' := filter _ r').
  simpl scheme_start_state. cbv iota. 
  change (is_special _) with false. cbv iota.
  change (is_char "/" "/") with true. simpl andb. cbv iota.
  simpl break.
  destruct (path_state r'' [] []) as [path rest'''] eqn:E.
  change (existsb forbidden_host _) with false. cbv iota.
  unfold path_start_state. change (is_char "/" "/") with true. cbv iota.
  rewrite E.
  eexists. split; [reflexivity |]. split; reflexivity.
Qed.

End Parser.

Section ParserClaims.
Import Web.

Lemma parseTotpUri_unfold (uri : string) :
  parseTotpUri uri =
  if JS.startsWith uri "otpauth://totp/" then
    match Spec.secret_parameter uri, Spec.label_source uri with
    | Some s, Some l =>
        if String.eqb s EmptyString then None else
        match decodeURIComponent l with
        | None => None
        | Some label =>
            Some {| secret := s; label := Some label;
                    issuer := match new_URL uri with
                              | Some url =>
                                  let i := get (new_URLSearchParams (search url)) "issuer" in
                                  if truthy i then i else None
                              | None => None
                              end |}
        end
    | _, _ => None
    end
  else None.
Proof.
  unfold parseTotpUri, Spec.secret_parameter, Spec.label_source.
  destruct (JS.startsWith uri "otpauth://totp/"); simpl; [| reflexivity].
  destruct (new_URL uri) as [url |]; simpl; [| reflexivity].
  destruct (get (new_URLSearchParams (search url)) "secret") as [s |]; [| reflexivity].
  destruct (String.eqb s EmptyString); reflexivity.
Qed.

Lemma parseTotpUri_Some_prefix (uri : string) (d : TotpData) :
  parseTotpUri uri = Some d -> JS.startsWith uri "otpauth://totp/" = true.
Proof.
  unfold parseTotpUri. destruct (JS.startsWith uri "otpauth://totp/"); simpl.
  - reflexivity.
  - discriminate.
Qed.

(** The [secret] field is the query parameter, and it is not empty. *)
Lemma parseTotpUri_secret (uri : string) (d : TotpData) :
  parseTotpUri uri = Some d ->
  Spec.secret_parameter uri = Some (secret d) /\ secret d <> EmptyString.
Proof.
  rewrite parseTotpUri_unfold.
  destruct (JS.startsWith uri "otpauth://totp/"); [| discriminate].
  destruct (Spec.secret_parameter uri) as [s |]; [| discriminate].
  destruct (Spec.label_source uri) as [l |]; [| discriminate].
  destruct (String.eqb_spec s EmptyString) as [E | N]; [discriminate |].
  destruct (decodeURIComponent l); [| discriminate].
  intros H. injection H as <-. simpl. split; [reflexivity | exact N].
Qed.

(** C2: on the URI of the specification's end-to-end scenario the URL
    has host [totp] and path [/Example:alice@example.com]; the parser
    returns the secret of the query, and as label the path without its
    first 7 characters, [e:alice@example.com]. *)
Theorem parseTotpUri_example_label :
  let uri := "otpauth://totp/Example:alice@example.com?secret=JBSWY3DPEHPK3PXP&issuer=Example"%string in
  option_map hostname (new_URL uri) = Some "totp"%string /\
  option_map pathname (new_URL uri) = Some "/Example:alice@example.com"%string /\
  parseTotpUri uri =
    Some {| secret := "JBSWY3DPEHPK3PXP";
            label := Some "e:alice@example.com"%string;
            issuer := Some "Example"%string |}.
Proof. repeat split. Qed.




(** C9: a URI that begins with [otpauth://totp/] and whose secret
    parameter is present but empty yields [null], as an absent one does;
    no [TotpData] has an empty secret. *)
Theorem parseTotpUri_empty_secret (uri : string) :
  JS.startsWith uri "otpauth://totp/" = true ->
  Spec.secret_parameter uri = Some EmptyString ->
  parseTotpUri uri = None /\
  (forall u d, parseTotpUri u = Some d -> secret d <> EmptyString).
Proof.
  intros Hp Hs. split.
  - rewrite parseTotpUri_unfold, Hp, Hs.
    destruct (Spec.label_source uri); reflexivity.
  - intros u d H. apply (parseTotpUri_secret u d H).
Qed.

Lemma parseTotpUri_empty_secret_witness :
  JS.startsWith "otpauth://totp/x?secret=" "otpauth://totp/" = true /\
  Spec.secret_parameter "otpauth://totp/x?secret=" = Some EmptyString /\
  parseTotpUri "otpauth://totp/x?secret=" = None.
Proof.
  split; [reflexivity |]. split; [reflexivity |].
  apply (parseTotpUri_empty_secret "otpauth://totp/x?secret="); reflexivity.
Defined.

(** C10: the prefix test compares characters exactly: an input that
    does not begin with the lower-case [otpauth://totp/] yields [null],
    whatever follows an upper-case variant of the prefix. *)
Theorem parseTotpUri_case_sensitive (uri : string) :
  JS.startsWith uri "otpauth://totp/" = false ->
  parseTotpUri uri = None /\
  (forall rest, parseTotpUri ("OTPAUTH://totp/" ++ rest) = None) /\
  (forall rest, parseTotpUri ("otpauth://TOTP/" ++ rest) = None) /\
  (forall rest, parseTotpUri ("Otpauth://totp/" ++ rest) = None).
Proof.
  intros H. split; [| repeat split; intros rest; reflexivity].
  unfold parseTotpUri. rewrite H. reflexivity.
Qed.

Lemma parseTotpUri_case_sensitive_witness :
  JS.startsWith "OTPAUTH://totp/x?secret=JBSWY3DPEHPK3PXP" "otpauth://totp/" = false /\
  parseTotpUri "OTPAUTH://totp/x?secret=JBSWY3DPEHPK3PXP" = None.
Proof.
  split; [reflexivity |].
  apply (parseTotpUri_case_sensitive "OTPAUTH://totp/x?secret=JBSWY3DPEHPK3PXP").
  reflexivity.
Defined.

End ParserClaims.

(** ** The refresh loop *)

Section Refresh.
Import ValueDisplay.

Lemma effect_active (value : string) (data : TotpData) (now now' : Z) (st : state) :
  parseTotpUri value = Some data ->
  effect value now now' st =
  {| totpCode := displayed (generateTotpCode now (secret data) false);
     timeRemaining := getTimeRemaining now';
     interval := Some (secret data);
     derived := now :: derived st |}.
Proof.
  intros H. unfold effect.
  rewrite (parseTotpUri_Some_prefix value data H), H. reflexivity.
Qed.

Lemma tick_boundary (now : Z) (st : state) (s : string) :
  interval st = Some s -> getTimeRemaining now = 30 ->
  tick now st =
  {| totpCode := displayed (generateTotpCode now s false);
     timeRemaining := 30;
     interval := Some s;
     derived := now :: derived st |}.
Proof.
  intros Hi Hr. unfold tick. rewrite Hi, Hr. reflexivity.
Qed.

Lemma tick_inside (now : Z) (st : state) (s : string) :
  interval st = Some s -> getTimeRemaining now <> 30 ->
  tick now st =
  {| totpCode := totpCode st;
     timeRemaining := getTimeRemaining now;
     interval := Some s;
     derived := derived st |}.
Proof.
  intros Hi Hr. unfold tick. rewrite Hi.
  destruct (Z.eqb_spec (getTimeRemaining now) 30) as [E | _]; [contradiction |].
  reflexivity.
Qed.

Lemma tick_interval (now : Z) (st : state) (s : string) :
  interval st = Some s -> interval (tick now st) = Some s.
Proof.
  intros Hi. destruct (Z.eq_dec (getTimeRemaining now) 30) as [E | N].
  - rewrite (tick_boundary _ _ _ Hi E). reflexivity.
  - rewrite (tick_inside _ _ _ Hi N). reflexivity.
Qed.

Lemma tick_timeRemaining (now : Z) (st : state) (s : string) :
  interval st = Some s -> timeRemaining (tick now st) = getTimeRemaining now.
Proof.
  intros Hi. destruct (Z.eq_dec (getTimeRemaining now) 30) as [E | N].
  - rewrite (tick_boundary _ _ _ Hi E). symmetry. exact E.
  - rewrite (tick_inside _ _ _ Hi N). reflexivity.
Qed.

(** One second later the countdown reads 30 exactly when the step
    counter has advanced. *)
Lemma second_crosses (now : Z) :
  0 <= now ->
  (getTimeRemaining (now + 1000) = 30 /\
   Spec.currentStep (now + 1000) = Spec.currentStep now + 1) \/
  (getTimeRemaining (now + 1000) <> 30 /\
   Spec.currentStep (now + 1000) = Spec.currentStep now).
Proof.
  intros H. rewrite getTimeRemaining_mod by lia. unfold Spec.currentStep.
  replace (now + 1000) with (now + 1 * 1000) by lia.
  rewrite Z.div_add by lia.
  assert (Hs : 0 <= now / 1000) by (apply Z.div_pos; lia).
  set (s := now / 1000) in *.
  pose proof (Z.div_mod s 30 ltac:(lia)) as E1.
  pose proof (Z.mod_pos_bound s 30 ltac:(lia)) as B1.
  pose proof (Z.div_mod (s + 1) 30 ltac:(lia)) as E2.
  pose proof (Z.mod_pos_bound (s + 1) 30 ltac:(lia)) as B2.
  lia.
Qed.

(** Over [n] one-second ticks the code is derived once per step
    boundary crossed, and the timer stays registered. *)
Lemma ticks_derived (n : nat) (now : Z) (st : state) (s : string) :
  0 <= now -> interval st = Some s ->
  interval (ticks n now st) = Some s /\
  Z.of_nat (List.length (derived (ticks n now st))) =
    Z.of_nat (List.length (derived st)) +
    (Spec.currentStep (now + 1000 * Z.of_nat n) - Spec.currentStep now).
Proof.
  revert now st. induction n as [| n IH]; intros now st Hnow Hi.
  - simpl ticks. split; [assumption |].
    replace (now + 1000 * Z.of_nat 0) with now by lia. lia.
  - cbn [ticks].
    replace (now + 1000 * Z.of_nat (S n)) with (now + 1000 + 1000 * Z.of_nat n) by lia.
    destruct (second_crosses now Hnow) as [[Hr Hc] | [Hr Hc]].
    + rewrite (tick_boundary _ _ s Hi Hr).
      match goal with |- context [ticks n _ ?st'] =>
        destruct (IH (now + 1000) st' ltac:(lia) eq_refl) as [I1 I2] end.
      split; [exact I1 |]. rewrite I2. cbn [derived List.length]. lia.
    + rewrite (tick_inside _ _ s Hi Hr).
      match goal with |- context [ticks n _ ?st'] =>
        destruct (IH (now + 1000) st' ltac:(lia) eq_refl) as [I1 I2] end.
      split; [exact I1 |]. rewrite I2. cbn [derived]. lia.
Qed.

(** C6: while the display is active, a tick re-derives the code exactly
    when the countdown it has just recomputed is 30; other ticks leave
    the code as it is; every tick stores the recomputed countdown.  Over
    31 one-second ticks that cross exactly one step boundary the code is
    re-derived exactly once, whatever the two clock readings [tc] and
    [tr] of the activation were. *)
Theorem tick_rederives_once (value : string) (data : TotpData) (tc tr t0 : Z) :
  0 <= t0 ->
  parseTotpUri value = Some data ->
  let st0 := effect value tc tr initial in
  (forall now st, interval st = Some (secret data) ->
     timeRemaining (tick now st) = getTimeRemaining now /\
     (getTimeRemaining now = 30 ->
        derived (tick now st) = now :: derived st /\
        totpCode (tick now st) = displayed (generateTotpCode now (secret data) false)) /\
     (getTimeRemaining now <> 30 ->
        derived (tick now st) = derived st /\
        totpCode (tick now st) = totpCode st)) /\
  (Spec.currentStep (t0 + 31000) = Spec.currentStep t0 + 1 ->
     List.length (derived (ticks 31 t0 st0)) = S (List.length (derived st0))).
Proof.
  intros Ht Hp st0. split.
  - intros now st Hi. split; [apply (tick_timeRemaining now st _ Hi) |]. split.
    + intros E. rewrite (tick_boundary _ _ _ Hi E). split; reflexivity.
    + intros N. rewrite (tick_inside _ _ _ Hi N). split; reflexivity.
  - intros Hc.
    assert (Hi : interval st0 = Some (secret data)).
    { subst st0. rewrite (effect_active _ _ _ _ _ Hp). reflexivity. }
    destruct (ticks_derived 31 t0 st0 _ Ht Hi) as [_ L].
    change (t0 + 1000 * Z.of_nat 31) with (t0 + 31000) in L. lia.
Qed.

Lemma tick_rederives_once_witness :
  let value := "otpauth://totp/x?secret=GEZDGNBVGY3TQOJQGEZDGNBVGY3TQOJQ"%string in
  0 <= 5000 /\
  parseTotpUri value =
    Some {| secret := "GEZDGNBVGY3TQOJQGEZDGNBVGY3TQOJQ";
            label := Some EmptyString; issuer := None |} /\
  List.length (derived (ticks 31 5000 (effect value 4999 5000 initial))) = 2%nat.
Proof.
  intros value. split; [lia |]. split; [reflexivity |].
  apply (tick_rederives_once value
           {| secret := "GEZDGNBVGY3TQOJQGEZDGNBVGY3TQOJQ";
              label := Some EmptyString; issuer := None |} 4999 5000 5000);
    [lia | reflexivity | reflexivity].
Defined.

(** C7: when the derivation fails, on activation or in a tick that
    derives, the displayed code becomes the string [Error] and the timer
    stays registered; the next tick still fires: it stores the countdown
    and, at a boundary, shows what the derivation then returns.  [now] is
    the clock reading of the failed derivation, [now'] the second
    reading of the activation. *)
Theorem derivation_failure_shows_Error
  (value : string) (data : TotpData) (now now' : Z) (st : state) :
  parseTotpUri value = Some data ->
  generateTotpCode now (secret data) false = None ->
  (totpCode (effect value now now' st) = Some "Error"%string /\
   interval (effect value now now' st) = Some (secret data)) /\
  (forall st', interval st' = Some (secret data) -> getTimeRemaining now = 30 ->
     totpCode (tick now st') = Some "Error"%string /\
     interval (tick now st') = Some (secret data)) /\
  (forall st' later, interval st' = Some (secret data) ->
     let st'' := tick later (tick now st') in
     interval st'' = Some (secret data) /\
     timeRemaining st'' = getTimeRemaining later /\
     (getTimeRemaining later = 30 ->
        totpCode st'' = displayed (generateTotpCode later (secret data) false))).
Proof.
  intros Hp Hg. split; [| split].
  - rewrite (effect_active _ _ _ _ _ Hp), Hg. split; reflexivity.
  - intros st' Hi E. rewrite (tick_boundary _ _ _ Hi E), Hg. split; reflexivity.
  - intros st' later Hi st''. subst st''.
    pose proof (tick_interval now st' _ Hi) as Hi'.
    split; [apply (tick_interval later _ _ Hi') |].
    split; [apply (tick_timeRemaining later _ _ Hi') |].
    intros E. rewrite (tick_boundary _ _ _ Hi' E). reflexivity.
Qed.

Lemma derivation_failure_shows_Error_witness :
  let value := "otpauth://totp/x?secret=18"%string in
  parseTotpUri value =
    Some {| secret := "18"; label := Some EmptyString; issuer := None |} /\
  generateTotpCode 30000 "18" false = None /\
  totpCode (effect value 30000 30001 initial) = Some "Error"%string /\
  interval (effect value 30000 30001 initial) = Some "18"%string.
Proof.
  intros value. split; [reflexivity |]. split; [reflexivity |].
  apply (derivation_failure_shows_Error value
           {| secret := "18"; label := Some EmptyString; issuer := None |}
           30000 30001 initial); reflexivity.
Defined.

End Refresh.

(** * Further properties *)

(** ** Codes and the countdown *)

Lemma generateTotpCode_same_step (now now' : Z) (s : string) (next : bool) :
  Spec.currentStep now = Spec.currentStep now' ->
  generateTotpCode now s next = generateTotpCode now' s next.
Proof.
  intros E. rewrite !generateTotpCode_spec.
  destruct next.
  - rewrite !currentStep_next, E. reflexivity.
  - rewrite !Z.add_0_r, E. reflexivity.
Qed.

Lemma currentStep_seconds (now d : Z) :
  Spec.currentStep (now + 1000 * d) = (now / 1000 + d) / 30.
Proof.
  unfold Spec.currentStep.
  replace (now + 1000 * d) with (now + d * 1000) by lia.
  rewrite Z.div_add by lia. reflexivity.
Qed.

(** X1: the countdown tells how long the code lasts.  [d] whole
    seconds later the code is the same as long as [d] is below the
    countdown read now; when [d] is the countdown, the code is the one
    the call with [next = true] returns now. *)
Theorem code_lasts_for_countdown (now d : Z) (s : string) :
  0 <= now -> 0 <= d ->
  (d < getTimeRemaining now ->
     generateTotpCode (now + 1000 * d) s false = generateTotpCode now s false) /\
  (d = getTimeRemaining now ->
     generateTotpCode (now + 1000 * d) s false = generateTotpCode now s true).
Proof.
  intros Hnow Hd.
  assert (Hs : 0 <= now / 1000) by (apply Z.div_pos; lia).
  pose proof (getTimeRemaining_mod now Hnow) as R.
  pose proof (Z.div_mod (now / 1000) 30 ltac:(lia)) as E.
  pose proof (Z.mod_pos_bound (now / 1000) 30 ltac:(lia)) as B.
  split; intros H.
  - apply generateTotpCode_same_step.
    rewrite currentStep_seconds. unfold Spec.currentStep.
    symmetry. apply (Z.div_unique _ _ _ ((now / 1000) mod 30 + d)); lia.
  - rewrite (generateTotpCode_spec now s true), (generateTotpCode_spec _ s false).
    rewrite Z.add_0_r, currentStep_next, currentStep_seconds.
    unfold Spec.currentStep.
    replace ((now / 1000 + d) / 30) with (now / 1000 / 30 + 1); [reflexivity |].
    apply (Z.div_unique _ _ _ 0); lia.
Qed.

Lemma code_lasts_for_countdown_witness :
  0 <= 1700000012345 /\ 0 <= 27 /\
  generateTotpCode (1700000012345 + 1000 * 27) "JBSWY3DPEHPK3PXP" false
    = generateTotpCode 1700000012345 "JBSWY3DPEHPK3PXP" false.
Proof.
  split; [lia |]. split; [lia |].
  refine (proj1 (code_lasts_for_countdown 1700000012345 27 "JBSWY3DPEHPK3PXP" _ _) _).
  - lia.
  - lia.
  - vm_compute. reflexivity.
Defined.

(** ** The display over time *)

Section DisplayProperties.
Import ValueDisplay Display.

Lemma displayed_code (now : Z) (s : string) :
  displayed (generateTotpCode now s false) = Some "Error"%string \/
  exists n, displayed (generateTotpCode now s false) = Some (Spec.six_digits n).
Proof.
  rewrite generateTotpCode_spec.
  destruct (Base32.keyDecoder s) as [K |]; simpl.
  - right. eexists. unfold Spec.totp. reflexivity.
  - left. reflexivity.
Qed.

Lemma currentStep_mono (a b : Z) :
  a <= b -> Spec.currentStep a <= Spec.currentStep b.
Proof.
  intros H. unfold Spec.currentStep.
  apply Z.div_le_mono; [lia |]. apply Z.div_le_mono; lia.
Qed.

(** The code cell along exact ticks, for a timer started at [t0] and a
    code read at [tc]: until the first boundary after [t0] it holds the
    code read at [tc], afterwards the code of the instant. *)
Lemma ticks_code (s : string) (tc t0 : Z) (n : nat) (t : Z) (st : state) :
  0 <= t0 <= t -> interval st = Some s ->
  (Spec.currentStep t = Spec.currentStep t0 ->
     totpCode st = displayed (generateTotpCode tc s false)) ->
  (Spec.currentStep t <> Spec.currentStep t0 ->
     totpCode st = displayed (generateTotpCode t s false)) ->
  let st' := ticks n t st in
  let now := t + 1000 * Z.of_nat n in
  (Spec.currentStep now = Spec.currentStep t0 ->
     totpCode st' = displayed (generateTotpCode tc s false)) /\
  (Spec.currentStep now <> Spec.currentStep t0 ->
     totpCode st' = displayed (generateTotpCode now s false)) /\
  ((0 < n)%nat -> timeRemaining st' = getTimeRemaining now).
Proof.
  revert t st. induction n as [| n IH]; intros t st Ht Hi H1 H2; cbn zeta.
  - replace (t + 1000 * Z.of_nat 0) with t by lia. cbn [ticks].
    split; [exact H1 |]. split; [exact H2 | lia].
  - cbn [ticks].
    replace (t + 1000 * Z.of_nat (S n)) with (t + 1000 + 1000 * Z.of_nat n) by lia.
    pose proof (currentStep_mono t0 t ltac:(lia)) as M.
    pose proof (tick_interval (t + 1000) st s Hi) as Hi'.
    assert (I : (Spec.currentStep (t + 1000) = Spec.currentStep t0 ->
                 totpCode (tick (t + 1000) st) = displayed (generateTotpCode tc s false)) /\
                (Spec.currentStep (t + 1000) <> Spec.currentStep t0 ->
                 totpCode (tick (t + 1000) st)
                 = displayed (generateTotpCode (t + 1000) s false))).
    { destruct (second_crosses t ltac:(lia)) as [[E C] | [N C]].
      - rewrite (tick_boundary _ _ _ Hi E). cbn [totpCode].
        split; [intros X; lia | reflexivity].
      - rewrite (tick_inside _ _ _ Hi N). cbn [totpCode]. split; intros X.
        + apply H1. lia.
        + rewrite H2 by lia.
          rewrite (generateTotpCode_same_step t (t + 1000) s false); [reflexivity |].
          symmetry. exact C. }
    destruct I as [I1 I2].
    destruct (IH (t + 1000) (tick (t + 1000) st) ltac:(lia) Hi' I1 I2) as (J1 & J2 & J3).
    split; [exact J1 |]. split; [exact J2 |]. intros _.
    destruct n as [| n].
    + replace (t + 1000 + 1000 * Z.of_nat 0) with (t + 1000) by lia. cbn [ticks].
      apply (tick_timeRemaining _ _ _ Hi).
    + apply J3. lia.
Qed.

(** X3: the display along a timer that fires every 1000 ms exactly,
    started at [t0], for an activation that read the clock at [tc] for
    the code.  Until the first window boundary after [t0] the code cell
    holds the code read at [tc]; from that boundary on, and before it
    too when [tc] lies in the window of [t0], it holds the code of the
    current instant.  After every tick the countdown cell holds the
    current countdown. *)
Theorem display_is_current
  (value : string) (data : TotpData) (tc tr t0 : Z) (n : nat) (st : state) :
  0 <= t0 -> parseTotpUri value = Some data ->
  let st' := ticks n t0 (effect value tc tr st) in
  let now := t0 + 1000 * Z.of_nat n in
  (Spec.currentStep now = Spec.currentStep t0 ->
     totpCode st' = displayed (generateTotpCode tc (secret data) false)) /\
  (Spec.currentStep now <> Spec.currentStep t0 \/
   Spec.currentStep tc = Spec.currentStep t0 ->
     totpCode st' = displayed (generateTotpCode now (secret data) false)) /\
  ((0 < n)%nat -> timeRemaining st' = getTimeRemaining now).
Proof.
  intros Ht Hp. rewrite (effect_active _ _ _ _ _ Hp). cbn zeta.
  set (s := secret data).
  match goal with |- context [ticks n t0 ?x] => set (st0 := x) end.
  destruct (ticks_code s tc t0 n t0 st0 ltac:(lia) eq_refl
              (fun _ => eq_refl) (fun N => False_ind _ (N eq_refl)))
    as (J1 & J2 & J3).
  split; [exact J1 |]. split; [| exact J3].
  intros [N | E]; [exact (J2 N) |].
  destruct (Z.eq_dec (Spec.currentStep (t0 + 1000 * Z.of_nat n)) (Spec.currentStep t0))
    as [E' | N]; [| exact (J2 N)].
  rewrite (J1 E').
  rewrite (generateTotpCode_same_step tc (t0 + 1000 * Z.of_nat n) s false);
    [reflexivity | congruence].
Qed.

Lemma display_is_current_witness :
  let value := "otpauth://totp/x?secret=GEZDGNBVGY3TQOJQGEZDGNBVGY3TQOJQ"%string in
  0 <= 30000 /\
  parseTotpUri value =
    Some {| secret := "GEZDGNBVGY3TQOJQGEZDGNBVGY3TQOJQ";
            label := Some EmptyString; issuer := None |} /\
  totpCode (ticks 29 30000 (effect value 29999 30000 initial)) = Some "755224"%string /\
  totpCode (ticks 30 30000 (effect value 29999 30000 initial)) = Some "359152"%string.
Proof.
  intros value. split; [lia |]. split; [reflexivity |]. split.
  - destruct (display_is_current value
                {| secret := "GEZDGNBVGY3TQOJQGEZDGNBVGY3TQOJQ";
                   label := Some EmptyString; issuer := None |}
                29999 30000 30000 29 initial ltac:(lia) eq_refl) as [H _].
    rewrite H; vm_compute; reflexivity.
  - destruct (display_is_current value
                {| secret := "GEZDGNBVGY3TQOJQGEZDGNBVGY3TQOJQ";
                   label := Some EmptyString; issuer := None |}
                29999 30000 30000 30 initial ltac:(lia) eq_refl) as (_ & H & _).
    rewrite H; [vm_compute; reflexivity |].
    left. vm_compute. discriminate.
Defined.

(** X4: the refresh hangs on a tick landing in the first second of a
    window.  Two ticks 1001 ms apart, 1 ms before a window boundary and
    one second after it, derive nothing: the code of the window that
    ended stays on screen although the time step has advanced. *)
Theorem late_tick_misses_boundary (k : Z) (st : state) (s : string) :
  1 <= k -> interval st = Some s ->
  let t1 := 30000 * k - 1 in
  let t2 := 30000 * k + 1000 in
  let st' := tick t2 (tick t1 st) in
  Spec.currentStep t2 = Spec.currentStep t1 + 1 /\
  totpCode st' = totpCode st /\
  derived st' = derived st /\
  timeRemaining st' = 29.
Proof.
  intros Hk Hi t1 t2 st'.
  assert (S1 : t1 / 1000 = 30 * k - 1).
  { symmetry. apply (Z.div_unique _ _ _ 999); subst t1; lia. }
  assert (S2 : t2 / 1000 = 30 * k + 1).
  { symmetry. apply (Z.div_unique _ _ _ 0); subst t2; lia. }
  assert (R1 : getTimeRemaining t1 = 1).
  { rewrite getTimeRemaining_mod by (subst t1; lia). rewrite S1.
    replace (30 * k - 1) with (29 + (k - 1) * 30) by lia.
    rewrite Z.mod_add by lia. reflexivity. }
  assert (R2 : getTimeRemaining t2 = 29).
  { rewrite getTimeRemaining_mod by (subst t2; lia). rewrite S2.
    replace (30 * k + 1) with (1 + k * 30) by lia.
    rewrite Z.mod_add by lia. reflexivity. }
  split.
  - unfold Spec.currentStep. rewrite S1, S2.
    replace (30 * k + 1) with (1 + k * 30) by lia.
    replace (30 * k - 1) with (29 + (k - 1) * 30) by lia.
    rewrite !Z.div_add by lia. change (1 / 30) with 0. change (29 / 30) with 0. lia.
  - subst st'.
    assert (N1 : getTimeRemaining t1 <> 30) by lia.
    assert (N2 : getTimeRemaining t2 <> 30) by lia.
    pose proof (tick_interval t1 st s Hi) as Hi'.
    rewrite (tick_inside t2 _ s Hi' N2). cbn [totpCode derived timeRemaining].
    rewrite (tick_inside t1 _ s Hi N1). cbn [totpCode derived].
    repeat split. exact R2.
Qed.

Lemma late_tick_misses_boundary_witness :
  let st := effect "otpauth://totp/x?secret=GEZDGNBVGY3TQOJQGEZDGNBVGY3TQOJQ" 0 0 initial in
  1 <= 1 /\
  interval st = Some "GEZDGNBVGY3TQOJQGEZDGNBVGY3TQOJQ"%string /\
  totpCode (tick 31000 (tick 29999 st)) = totpCode st.
Proof.
  intros st. split; [lia |]. split; [reflexivity |].
  refine (proj1 (proj2 (late_tick_misses_boundary 1 st
                          "GEZDGNBVGY3TQOJQGEZDGNBVGY3TQOJQ" _ _))).
  - lia.
  - reflexivity.
Defined.

End DisplayProperties.

Section DisplayInvariant.
Import ValueDisplay Display.

Lemma displayed_code_ok (now : Z) (s : string) :
  code_ok (displayed (generateTotpCode now s false)).
Proof.
  destruct (displayed_code now s) as [E | [n E]]; rewrite E.
  - right. left. reflexivity.
  - right. right. exists (Spec.six_digits n).
    split; [reflexivity |]. split; [reflexivity | apply six_digits_all_digits].
Qed.

Lemma step_inv (st : state) (e : event) :
  0 <= time_of e -> display_inv st -> display_inv (step st e).
Proof.
  intros Ht [Hc Hr]. destruct e as [value now now' | now |]; simpl in Ht; cbn [step].
  - unfold effect.
    destruct (JS.startsWith value "otpauth://totp/"); cbn [negb];
      [| split; assumption].
    destruct (parseTotpUri value) as [d |]; [| split; assumption].
    split; cbn [totpCode timeRemaining].
    + apply displayed_code_ok.
    + pose proof (getTimeRemaining_pos now' Ht). lia.
  - destruct (interval st) as [s |] eqn:Hi.
    + pose proof (getTimeRemaining_pos now Ht) as B.
      destruct (Z.eq_dec (getTimeRemaining now) 30) as [E | N].
      * rewrite (tick_boundary _ _ _ Hi E). split; cbn [totpCode timeRemaining].
        -- apply displayed_code_ok.
        -- lia.
      * rewrite (tick_inside _ _ _ Hi N). split; cbn [totpCode timeRemaining].
        -- exact Hc.
        -- lia.
    + unfold tick. rewrite Hi. split; assumption.
  - split; assumption.
Qed.

Lemma run_inv (events : list event) (st : state) :
  Forall (fun e => 0 <= time_of e) events ->
  display_inv st -> display_inv (run events st).
Proof.
  revert st. induction events as [| e events IH]; intros st Ht Hi.
  - exact Hi.
  - inversion Ht as [| ? ? H1 H2]; subst. cbn [run fold_left].
    apply IH; [exact H2 | apply step_inv; assumption].
Qed.

(** X5: whatever values are shown, whenever the timer fires and
    however often the display is re-activated, the code cell holds
    nothing, the error marker, or six decimal digits, the countdown cell
    holds a number from 1 to 30, and what the copy button hands to the
    clipboard is always a six-digit code, never the error marker. *)
Theorem display_invariant (events : list event) :
  Forall (fun e => 0 <= time_of e) events ->
  let st := run events initial in
  code_ok (totpCode st) /\
  1 <= timeRemaining st <= 30 /\
  (forall c, handleCopyTotpCode st = Some c ->
     String.length c = 6%nat /\ JS.all_digits c = true /\ c <> "Error"%string).
Proof.
  intros Ht st.
  assert (I : display_inv st).
  { apply run_inv; [exact Ht |]. split; [left; reflexivity | simpl; lia]. }
  destruct I as [Hc Hr]. split; [exact Hc |]. split; [exact Hr |].
  intros c. unfold handleCopyTotpCode.
  destruct Hc as [E | [E | (d & E & L & D)]]; rewrite E.
  - discriminate.
  - simpl. discriminate.
  - destruct (negb (truthy (Some d)) || String.eqb d "Error") eqn:G; [discriminate |].
    intros H. injection H as <-.
    split; [exact L |]. split; [exact D |].
    intros ->. discriminate L.
Qed.

Lemma display_invariant_witness :
  let events := [Show "otpauth://totp/x?secret=GEZDGNBVGY3TQOJQGEZDGNBVGY3TQOJQ" 59000 59001;
                 Tick 60000; Show "otpauth://totp/x?secret=18" 60500 60500; Tick 61000] in
  Forall (fun e => 0 <= time_of e) events /\
  1 <= timeRemaining (run events initial) <= 30.
Proof.
  intros events.
  assert (H : Forall (fun e => 0 <= time_of e) events)
    by (repeat constructor; simpl; lia).
  split; [exact H |].
  exact (proj1 (proj2 (display_invariant events H))).
Defined.

(** X6: showing a value registers a timer exactly when the value parses
    as a TOTP URI, with the secret of the URI; when it does not parse,
    the state is the one the cleanup left: no timer, and the code of the
    value shown before still in the code cell, so that a value that
    begins with [otpauth://totp/] but does not parse shows that old
    code. *)
Theorem show_starts_timer_iff_parsed (value : string) (now now' : Z) (st : state) :
  let st' := step st (Show value now now') in
  interval st' = option_map secret (parseTotpUri value) /\
  (parseTotpUri value = None ->
     st' = cleanup st /\
     (isTotpUri value = true -> shown value st' = shown value st)).
Proof.
  cbn zeta. cbn [step]. destruct (parseTotpUri value) as [d |] eqn:Hp.
  - rewrite (effect_active _ _ _ _ _ Hp). split; [reflexivity | discriminate].
  - assert (E : effect value now now' (cleanup st) = cleanup st).
    { unfold effect. rewrite Hp.
      destruct (JS.startsWith value "otpauth://totp/"); reflexivity. }
    rewrite E. split; [reflexivity |]. intros _. split; [reflexivity |].
    intros _. reflexivity.
Qed.

End DisplayInvariant.

(** ** A URI built from a label and a secret *)

Section UriRoundTrip.
Import Web Plain.

Lemma alnum_plain (c : ascii) : is_alnum c = true -> plain_facts c = true.
Proof.
  destruct c as [[] [] [] [] [] [] [] []]; vm_compute; intros H;
    first [reflexivity | discriminate H].
Qed.

Ltac plain_char H :=
  apply alnum_plain in H; unfold plain_facts in H;
  repeat (apply andb_true_iff in H; destruct H as [H ?]);
  repeat match goal with
         | X : negb _ = true |- _ => apply negb_true_iff in X
         end.

Lemma remove_tab_newline_plain (l : chars) :
  forallb is_alnum l = true -> remove_tab_newline l = l.
Proof.
  unfold remove_tab_newline. induction l as [| c l IH]; simpl; intros H.
  - reflexivity.
  - apply andb_true_iff in H. destruct H as [Hc Hl]. plain_char Hc.
    match goal with X : between 9 10 c || _ = false |- _ => rewrite X end.
    cbn [negb]. rewrite (IH Hl). reflexivity.
Qed.

Lemma path_state_plain (l buf rest : chars) (path : list chars) :
  forallb is_alnum l = true ->
  path_state (l ++ "?"%char :: rest) buf path =
  (push_segment (rev l ++ buf) path false, "?"%char :: rest).
Proof.
  revert buf. induction l as [| c l IH]; intros buf H.
  - reflexivity.
  - simpl in H. apply andb_true_iff in H. destruct H as [Hc Hl]. plain_char Hc.
    cbn [app path_state].
    match goal with X : is_char c "/" = false |- _ => rewrite X end.
    match goal with X : one_of "?#" c = false |- _ => rewrite X end.
    unfold percent_encode.
    match goal with X : path_set c = false |- _ => rewrite X end.
    rewrite (IH _ Hl). cbn [rev app]. rewrite <- app_assoc. reflexivity.
Qed.

Lemma eq_nocase_plain (l : chars) (a : ascii) (s : string) :
  forallb is_alnum l = true ->
  a = "."%char \/ a = "%"%char ->
  eq_nocase l (String a s) = false.
Proof.
  intros H Ha. unfold eq_nocase. destruct l as [| c l]; [reflexivity |].
  simpl in H. apply andb_true_iff in H. destruct H as [Hc _]. plain_char Hc.
  cbn [map string_of_list_ascii String.eqb].
  destruct Ha as [-> | ->];
    match goal with X : Ascii.eqb (lower c) _ = false |- _ => rewrite X end;
    reflexivity.
Qed.

Lemma not_dot_segment (l : chars) :
  forallb is_alnum l = true -> single_dot l = false /\ double_dot l = false.
Proof.
  intros H. unfold single_dot, double_dot.
  rewrite !(eq_nocase_plain l) by (assumption || (left; reflexivity) || (right; reflexivity)).
  split; reflexivity.
Qed.

Lemma break_plain (p : ascii -> bool) (l : chars) :
  forallb (fun c => negb (p c)) l = true -> break p l = (l, []).
Proof.
  induction l as [| c l IH]; simpl; intros H.
  - reflexivity.
  - apply andb_true_iff in H. destruct H as [Hc Hl].
    apply negb_true_iff in Hc. rewrite Hc, (IH Hl). reflexivity.
Qed.

Lemma forallb_plain (q : ascii -> bool) (l : chars) :
  (forall c, plain_facts c = true -> q c = true) ->
  forallb is_alnum l = true -> forallb q l = true.
Proof.
  intros Hq H. apply forallb_forall. intros c Hc.
  apply Hq. apply alnum_plain.
  rewrite forallb_forall in H. apply H. exact Hc.
Qed.

Lemma query_encode_plain (l : chars) :
  forallb is_alnum l = true -> flat_map (percent_encode query_set) l = l.
Proof.
  induction l as [| c l IH]; intros H.
  - reflexivity.
  - simpl in H. apply andb_true_iff in H. destruct H as [Hc Hl]. plain_char Hc.
    cbn [flat_map]. unfold percent_encode at 1.
    match goal with X : query_set c = false |- _ => rewrite X end.
    cbn [app]. rewrite (IH Hl). reflexivity.
Qed.

Lemma split_plain (l : chars) :
  forallb is_alnum l = true -> split "&" l = [l].
Proof.
  induction l as [| c l IH]; intros H.
  - reflexivity.
  - simpl in H. apply andb_true_iff in H. destruct H as [Hc Hl]. plain_char Hc.
    cbn [split].
    match goal with X : is_char c "&" = false |- _ => rewrite X end.
    rewrite (IH Hl). reflexivity.
Qed.

Lemma percent_decode_plain (l : chars) :
  forallb is_alnum l = true -> percent_decode l = l.
Proof.
  induction l as [| c l IH]; intros H.
  - reflexivity.
  - simpl in H. apply andb_true_iff in H. destruct H as [Hc Hl]. plain_char Hc.
    cbn [percent_decode].
    match goal with X : is_char c "%" = false |- _ => rewrite X end.
    rewrite (IH Hl). reflexivity.
Qed.

Lemma utf8_decode_plain (l : chars) :
  forallb is_alnum l = true -> utf8_decode l 0 0x80 0xBF [] = l.
Proof.
  induction l as [| c l IH]; intros H.
  - reflexivity.
  - simpl in H. apply andb_true_iff in H. destruct H as [Hc Hl]. plain_char Hc.
    cbn [utf8_decode].
    match goal with X : (Bytes.code c <? 128) = true |- _ => rewrite X end.
    rewrite (IH Hl). reflexivity.
Qed.

Lemma form_decode_plain (l : chars) :
  forallb is_alnum l = true -> form_decode l = string_of_list_ascii l.
Proof.
  intros H. unfold form_decode.
  replace (map (fun c => if is_char c "+" then " "%char else c) l) with l.
  - rewrite (percent_decode_plain l H), (utf8_decode_plain l H). reflexivity.
  - induction l as [| c l IH]; [reflexivity |].
    simpl in H. apply andb_true_iff in H. destruct H as [Hc Hl]. plain_char Hc.
    cbn [map].
    match goal with X : is_char c "+" = false |- _ => rewrite X end.
    rewrite <- (IH Hl). reflexivity.
Qed.

Lemma substring_plain (n : nat) (s : string) :
  forallb is_alnum (list_ascii_of_string s) = true ->
  forallb is_alnum (list_ascii_of_string (JS.substring n s)) = true.
Proof.
  revert s. induction n as [| n IH]; intros s H.
  - destruct s; exact H.
  - destruct s as [| c s]; [reflexivity |].
    simpl in H. apply andb_true_iff in H. apply IH. apply H.
Qed.

Lemma unescape_plain (l : chars) :
  forallb is_alnum l = true ->
  unescape l = Some (map (fun c => (false, Bytes.code c)) l).
Proof.
  induction l as [| c l IH]; intros H.
  - reflexivity.
  - simpl in H. apply andb_true_iff in H. destruct H as [Hc Hl]. plain_char Hc.
    cbn [unescape].
    match goal with X : is_char c "%" = false |- _ => rewrite X end.
    rewrite (IH Hl). reflexivity.
Qed.

Lemma escapes_utf8_plain (l : chars) :
  forallb is_alnum l = true ->
  escapes_utf8 (map (fun c => (false, Bytes.code c)) l) 0 0x80 0xBF = Some l.
Proof.
  induction l as [| c l IH]; intros H.
  - reflexivity.
  - simpl in H. apply andb_true_iff in H. destruct H as [Hc Hl]. plain_char Hc.
    cbn [map escapes_utf8 negb orb]. rewrite (IH Hl). cbn [option_map].
    match goal with X : Ascii.eqb (Bytes.char (Bytes.code c)) c = true |- _ =>
      apply Ascii.eqb_eq in X; rewrite X end.
    reflexivity.
Qed.

(** On letters and digits [decodeURIComponent] is the identity. *)
Lemma decodeURIComponent_plain (s : string) :
  forallb is_alnum (list_ascii_of_string s) = true ->
  decodeURIComponent s = Some s.
Proof.
  intros H. unfold decodeURIComponent.
  rewrite (unescape_plain _ H), (escapes_utf8_plain _ H). cbn [option_map].
  rewrite string_of_list_ascii_of_string. reflexivity.
Qed.

Lemma trim_id (c d : ascii) (m : chars) :
  (Bytes.code c <=? 32) = false -> (Bytes.code d <=? 32) = false ->
  trim (c :: m ++ [d]) = c :: m ++ [d].
Proof.
  intros Hc Hd. unfold trim. cbn [drop_while]. rewrite Hc.
  change (c :: m ++ [d]) with ((c :: m) ++ [d]).
  rewrite rev_app_distr. cbn [rev app drop_while]. rewrite Hd.
  change (d :: rev m ++ [c]) with ([d] ++ rev (c :: m)).
  rewrite rev_app_distr, rev_involutive. reflexivity.
Qed.

Lemma alnum_last (s : string) :
  alnum s = true -> s <> EmptyString ->
  exists m d, list_ascii_of_string s = m ++ [d] /\ (Bytes.code d <=? 32) = false.
Proof.
  unfold alnum. intros H N.
  destruct (exists_last (l := list_ascii_of_string s)) as (m & d & E).
  - intros E. apply N. rewrite <- (string_of_list_ascii_of_string s), E. reflexivity.
  - exists m, d. split; [exact E |].
    rewrite E, forallb_app in H. apply andb_true_iff in H. destruct H as [_ H].
    simpl in H. rewrite andb_true_r in H. plain_char H. assumption.
Qed.

(** The URL of a URI made of the prefix, a label of letters and digits,
    and a query of one parameter whose value is letters and digits. *)
Lemma new_URL_built (L S : string) :
  alnum L = true -> alnum S = true -> S <> EmptyString ->
  new_URL ("otpauth://totp/" ++ L ++ "?secret=" ++ S) =
  Some {| protocol := "otpauth:"; hostname := "totp";
          pathname := String "/" L;
          search := "?secret=" ++ S |}.
Proof.
  intros HL HS NS. unfold new_URL.
  rewrite !list_ascii_of_string_app.
  set (lL := list_ascii_of_string L). set (lS := list_ascii_of_string S).
  assert (T : trim (list_ascii_of_string "otpauth://totp/" ++ lL ++
                    list_ascii_of_string "?secret=" ++ lS)
              = list_ascii_of_string "otpauth://totp/" ++ lL ++
                list_ascii_of_string "?secret=" ++ lS).
  { destruct (alnum_last S HS NS) as (m & d & E & Hd). subst lS. rewrite E.
    change (list_ascii_of_string "otpauth://totp/")
      with ("o"%char :: list_ascii_of_string "tpauth://totp/").
    rewrite !app_assoc. rewrite <- app_comm_cons.
    apply trim_id; [reflexivity | exact Hd]. }
  rewrite T. clear T.
  assert (F : remove_tab_newline (list_ascii_of_string "otpauth://totp/" ++ lL ++
                    list_ascii_of_string "?secret=" ++ lS)
              = list_ascii_of_string "otpauth://totp/" ++ lL ++
                list_ascii_of_string "?secret=" ++ lS).
  { unfold remove_tab_newline. rewrite !filter_app.
    fold (remove_tab_newline lL). fold (remove_tab_newline lS).
    rewrite (remove_tab_newline_plain lL HL), (remove_tab_newline_plain lS HS).
    reflexivity. }
  rewrite F. clear F.
  cbn [list_ascii_of_string app].
  simpl scheme_start_state. cbv iota.
  change (is_special _) with false. cbv iota.
  change (is_char "/" "/") with true. cbn [andb].
  simpl break. cbv beta iota.
  change (existsb forbidden_host _) with false. cbv iota.
  unfold path_start_state. change (is_char "/" "/") with true. cbv iota.
  rewrite (path_state_plain lL [] _ [] HL).
  unfold push_segment. rewrite app_nil_r, rev_involutive.
  destruct (not_dot_segment lL HL) as [-> ->].
  unfold query_state. change (is_char "?" "?") with true. cbv iota.
  change ("s" :: "e" :: "c" :: "r" :: "e" :: "t" :: "=" :: lS)%char
    with (list_ascii_of_string "secret=" ++ lS).
  assert (B : break (fun d => is_char d "#") (list_ascii_of_string "secret=" ++ lS)
              = (list_ascii_of_string "secret=" ++ lS, [])).
  { apply break_plain. rewrite forallb_app. apply andb_true_iff.
    split; [reflexivity |]. apply (forallb_plain _ lS); [| exact HS].
    intros c Hc. unfold plain_facts in Hc.
    repeat (apply andb_true_iff in Hc; destruct Hc as [Hc ?]). assumption. }
  rewrite B. clear B. cbn [fst].
  rewrite flat_map_app, (query_encode_plain lS HS).
  cbn [list_ascii_of_string flat_map app].
  f_equal. f_equal.
  - unfold serialize_path. cbn [rev app flat_map]. rewrite app_nil_r.
    cbn [string_of_list_ascii]. subst lL.
    rewrite string_of_list_ascii_of_string. reflexivity.
  - cbn. subst lS. rewrite string_of_list_ascii_of_string. reflexivity.
Qed.

Lemma params_built (S : string) :
  alnum S = true ->
  new_URLSearchParams ("?secret=" ++ S) = [("secret"%string, S)].
Proof.
  intros HS. unfold new_URLSearchParams.
  rewrite list_ascii_of_string_app.
  set (lS := list_ascii_of_string S).
  cbn [list_ascii_of_string app]. change (is_char "?" "?") with true. cbv iota.
  change ("s" :: "e" :: "c" :: "r" :: "e" :: "t" :: "=" :: lS)%char
    with ("s" :: "e" :: "c" :: "r" :: "e" :: "t" :: "=" :: lS)%char.
  assert (E : split "&" ("s" :: "e" :: "c" :: "r" :: "e" :: "t" :: "=" :: lS)%char
              = [("s" :: "e" :: "c" :: "r" :: "e" :: "t" :: "=" :: lS)%char]).
  { cbn [split]. rewrite (split_plain lS HS). reflexivity. }
  rewrite E. clear E. cbn [filter List.length Nat.eqb negb map].
  unfold parse_pair. simpl break. cbv beta iota. cbn [tl].
  rewrite (form_decode_plain lS HS). subst lS.
  rewrite string_of_list_ascii_of_string. reflexivity.
Qed.

(** The parse of a URI built from a label and a secret. *)
Lemma parse_built (L S : string) :
  alnum L = true -> alnum S = true -> S <> EmptyString ->
  exists l,
    parseTotpUri ("otpauth://totp/" ++ L ++ "?secret=" ++ S) =
    Some {| secret := S; label := Some l; issuer := None |}.
Proof.
  intros HL HS NS. unfold parseTotpUri.
  change (JS.startsWith ("otpauth://totp/" ++ L ++ "?secret=" ++ S) "otpauth://totp/")
    with (JS.startsWith ("otpauth://totp/" ++ (L ++ "?secret=" ++ S)) "otpauth://totp/").
  assert (P : forall r, JS.startsWith ("otpauth://totp/" ++ r) "otpauth://totp/" = true).
  { intros r. unfold JS.startsWith. simpl.
    repeat match goal with
           | |- context [Ascii.ascii_dec ?a ?a] =>
               destruct (Ascii.ascii_dec a a); [| congruence]
           end.
    destruct r; reflexivity. }
  rewrite P. cbn [negb].
  rewrite (new_URL_built L S HL HS NS). cbn [search pathname].
  rewrite (params_built S HS). cbn [get].
  change (String.eqb "secret" "secret") with true. cbv iota.
  change (String.eqb "secret" "issuer") with false. cbv iota.
  unfold truthy at 1.
  destruct (String.eqb_spec S EmptyString) as [E | _]; [contradiction |].
  cbn [negb].
  change (JS.substring 7 (String "/" L)) with (JS.substring 6 L).
  rewrite (decodeURIComponent_plain _ (substring_plain 6 L HL)). cbn [truthy].
  eexists. reflexivity.
Qed.

(** X2: a URI made of the prefix, a label of ASCII letters and digits
    and the one parameter [secret] whose value is a non-empty text of
    ASCII letters and digits (so every unpadded Base32 secret) parses,
    and the parser returns exactly that secret, with no issuer. *)
Theorem parseTotpUri_built (L S : string) :
  alnum L = true -> alnum S = true -> S <> EmptyString ->
  exists l,
    parseTotpUri ("otpauth://totp/" ++ L ++ "?secret=" ++ S) =
    Some {| secret := S; label := Some l; issuer := None |}.
Proof. exact (parse_built L S). Qed.

Lemma parseTotpUri_built_witness :
  alnum "Example" = true /\ alnum "JBSWY3DPEHPK3PXP" = true /\
  "JBSWY3DPEHPK3PXP"%string <> EmptyString /\
  exists l,
    parseTotpUri "otpauth://totp/Example?secret=JBSWY3DPEHPK3PXP" =
    Some {| secret := "JBSWY3DPEHPK3PXP"; label := Some l; issuer := None |}.
Proof.
  split; [reflexivity |]. split; [reflexivity |]. split; [discriminate |].
  apply (parseTotpUri_built "Example" "JBSWY3DPEHPK3PXP");
    [reflexivity | reflexivity | discriminate].
Defined.

End UriRoundTrip.

(** ** From the URI to the screen *)

Section EndToEnd.
Import ValueDisplay Display Plain.

(** X7: end to end.  When a URI built from a label and a secret of
    letters and digits is shown, the timer is registered with that
    secret, and the display shows what [generateTotpCode] returned for
    that secret at the first clock reading, the error marker standing
    for [null] or an empty code, beside the countdown of the second
    reading. *)
Theorem shown_code_of_built_uri (L S : string) (now now' : Z) (st : state) :
  alnum L = true -> alnum S = true -> S <> EmptyString ->
  let uri := ("otpauth://totp/" ++ L ++ "?secret=" ++ S)%string in
  let st' := step st (Show uri now now') in
  interval st' = Some S /\
  shown uri st' =
    Some (match generateTotpCode now S false with
          | Some code => if String.eqb code EmptyString then "Error"%string else code
          | None => "Error"%string
          end, getTimeRemaining now').
Proof.
  intros HL HS NS uri st'.
  destruct (parse_built L S HL HS NS) as [l Hp]. fold uri in Hp.
  subst st'. cbn [step]. rewrite (effect_active _ _ _ _ _ Hp). cbn [secret].
  split; [reflexivity |].
  unfold shown. cbn [totpCode timeRemaining].
  unfold isTotpUri. rewrite (parseTotpUri_Some_prefix _ _ Hp).
  destruct (generateTotpCode now S false) as [code |]; [| reflexivity].
  unfold displayed, truthy.
  destruct (String.eqb_spec code EmptyString) as [E | N]; cbn [negb].
  - reflexivity.
  - cbn [andb]. destruct (String.eqb_spec code EmptyString); [contradiction |].
    reflexivity.
Qed.

Lemma shown_code_of_built_uri_witness :
  alnum "alice" = true /\ alnum "GEZDGNBVGY3TQOJQGEZDGNBVGY3TQOJQ" = true /\
  "GEZDGNBVGY3TQOJQGEZDGNBVGY3TQOJQ"%string <> EmptyString /\
  (let uri := ("otpauth://totp/" ++ "alice" ++ "?secret=" ++
               "GEZDGNBVGY3TQOJQGEZDGNBVGY3TQOJQ")%string in
   shown uri (step initial (Show uri 59999 60000)) = Some ("287082"%string, 30)).
Proof.
  split; [reflexivity |]. split; [reflexivity |]. split; [discriminate |].
  cbv zeta.
  rewrite (proj2 (shown_code_of_built_uri "alice" "GEZDGNBVGY3TQOJQGEZDGNBVGY3TQOJQ"
                    59999 60000 initial eq_refl eq_refl ltac:(discriminate))).
  vm_compute. reflexivity.
Defined.

End EndToEnd.

(** ** The barcode renderer *)

Section Renderer.
Import BarcodeRenderer.
Context {num : Type}.

Lemma includes_In (l : list string) (s : string) :
  includes l s = true <-> In s l.
Proof.
  unfold includes. rewrite existsb_exists. split.
  - intros (x & Hx & E). apply String.eqb_eq in E. subst. exact Hx.
  - intros H. exists s. split; [exact H | apply String.eqb_refl].
Qed.

(** X8: the choice of renderer hangs on the format alone.  A QR code is
    drawn exactly for the three QR formats; every other format, known or
    not, is drawn as a linear barcode of the same value in one of eight
    symbologies: the one the table gives for the nine linear formats,
    where the table always has an entry, and CODE128 for the rest. *)
Theorem BarcodeRenderer_choice (code : Storage.QRCodeData) (qrSize w h : num) :
  let value := Storage.value code in
  let format := Storage.format code in
  (includes qrCodeFormats format = true ->
     BarcodeRenderer code qrSize w h = QRCodeSVG value qrSize) /\
  (includes qrCodeFormats format = false ->
     exists f,
       BarcodeRenderer code qrSize w h = Barcode value f w h true 0 /\
       In f [CODE128; CODE39; EAN13; EAN8; UPC; UPCE; codabar; ITF] /\
       (includes linearBarcodeFormats format = true ->
          lookup formatMap format = Some f) /\
       (includes linearBarcodeFormats format = false -> f = CODE128)).
Proof.
  intros value format. unfold BarcodeRenderer. fold value. fold format.
  clearbody format.
  split; intros Hq; rewrite Hq; [reflexivity |].
  destruct (includes linearBarcodeFormats format) eqn:Hl.
  - apply includes_In in Hl. simpl in Hl.
    repeat (destruct Hl as [<- | Hl];
            [eexists; split; [reflexivity |];
             split; [simpl; tauto | split; [reflexivity | discriminate]] |]).
    contradiction.
  - exists CODE128. split; [reflexivity |].
    split; [simpl; tauto | split; [discriminate | reflexivity]].
Qed.

End Renderer.

(** ** The storage of codes *)

Section StorageProperties.
Import Storage.

Lemma load_save (codes : list QRCodeData) (ls : localStorage) :
  quota_exceeded ls = false ->
  loadQRCodes (saveQRCodes codes ls) = codes /\
  quota_exceeded (saveQRCodes codes ls) = false.
Proof.
  intros H. unfold saveQRCodes, setItem. rewrite H. split; reflexivity.
Qed.

Lemma save_full (codes : list QRCodeData) (ls : localStorage) :
  quota_exceeded ls = true -> saveQRCodes codes ls = ls.
Proof. intros H. unfold saveQRCodes, setItem. rewrite H. reflexivity. Qed.

(** X9: adding then loading.  When the write succeeds, [addQRCode]
    returns the new code in front of the codes stored before, and a
    later [loadQRCodes] returns that same list; an item that was
    missing, empty or not parsable counts as no codes and is replaced. *)
Theorem addQRCode_then_load (code : QRCodeData) (ls : localStorage) :
  quota_exceeded ls = false ->
  fst (addQRCode code ls) = code :: loadQRCodes ls /\
  loadQRCodes (snd (addQRCode code ls)) = code :: loadQRCodes ls /\
  (qrCodes ls = None \/ qrCodes ls = Some Empty \/ qrCodes ls = Some Invalid ->
     loadQRCodes (snd (addQRCode code ls)) = [code]).
Proof.
  intros H. unfold addQRCode. cbn [fst snd].
  destruct (load_save (code :: loadQRCodes ls) ls H) as [E _].
  split; [reflexivity |]. split; [exact E |].
  intros C. rewrite E. unfold loadQRCodes.
  destruct C as [-> | [-> | ->]]; reflexivity.
Qed.

Lemma addQRCode_then_load_witness :
  let ls := {| qrCodes := Some Invalid; quota_exceeded := false |} in
  let code := {| id := "1"; value := "v"; description := ""; timestamp := 1;
                 format := "qr_code" |} in
  quota_exceeded ls = false /\ loadQRCodes (snd (addQRCode code ls)) = [code].
Proof.
  intros ls code. split; [reflexivity |].
  apply (proj2 (proj2 (addQRCode_then_load code ls eq_refl))).
  right. right. reflexivity.
Defined.

(** X10: a write that fails is swallowed.  When [setItem] throws,
    every operation leaves the storage as it was, yet [addQRCode] still
    returns the list with the new code: the list handed to the caller
    and the list a reload gives differ by that code. *)
Theorem failed_write_is_silent (code : QRCodeData) (ls : localStorage) :
  quota_exceeded ls = true ->
  snd (addQRCode code ls) = ls /\
  fst (addQRCode code ls) = code :: loadQRCodes (snd (addQRCode code ls)) /\
  (forall i u, snd (updateQRCode i u ls) = ls) /\
  (forall i, snd (deleteQRCode i ls) = ls) /\
  (forall j, snd (importQRCodes j ls) = ls).
Proof.
  intros H. unfold addQRCode, updateQRCode, deleteQRCode. cbn [fst snd].
  rewrite (save_full _ ls H). split; [reflexivity |]. split; [reflexivity |].
  split; [| split].
  - intros i u. apply save_full. exact H.
  - intros i. apply save_full. exact H.
  - intros [| | l]; unfold importQRCodes; cbn [snd]; try reflexivity.
    apply save_full. exact H.
Qed.

Lemma failed_write_is_silent_witness :
  let ls := {| qrCodes := None; quota_exceeded := true |} in
  let code := {| id := "1"; value := "v"; description := ""; timestamp := 1;
                 format := "qr_code" |} in
  quota_exceeded ls = true /\
  fst (addQRCode code ls) = [code] /\ loadQRCodes (snd (addQRCode code ls)) = [].
Proof.
  intros ls code. split; [reflexivity |].
  destruct (failed_write_is_silent code ls eq_refl) as (E1 & E2 & _).
  rewrite E2, E1. split; reflexivity.
Defined.

Lemma filter_all {A : Type} (p : A -> bool) (l : list A) :
  (forall x, In x l -> p x = true) -> filter p l = l.
Proof.
  induction l as [| a l IH]; intros H; simpl.
  - reflexivity.
  - rewrite (H a) by (left; reflexivity).
    rewrite IH; [reflexivity |]. intros x Hx. apply H. right. exact Hx.
Qed.

Lemma filter_none {A : Type} (p : A -> bool) (l : list A) :
  (forall x, In x l -> p x = false) -> filter p l = [].
Proof.
  induction l as [| a l IH]; intros H; simpl.
  - reflexivity.
  - rewrite (H a) by (left; reflexivity).
    apply IH. intros x Hx. apply H. right. exact Hx.
Qed.

(** X11: deleting.  [deleteQRCode] keeps, in order, exactly the codes
    whose id differs from the one given, so every code that shares the
    id goes; and deleting a code just added under an id no stored code
    has gives back the list stored before. *)
Theorem deleteQRCode_after_add (code : QRCodeData) (ls : localStorage) :
  quota_exceeded ls = false ->
  (forall c, In c (loadQRCodes ls) -> id c <> id code) ->
  (forall i x, In x (fst (deleteQRCode i ls)) <->
               In x (loadQRCodes ls) /\ id x <> i) /\
  fst (deleteQRCode (id code) (snd (addQRCode code ls))) = loadQRCodes ls /\
  loadQRCodes (snd (deleteQRCode (id code) (snd (addQRCode code ls)))) = loadQRCodes ls.
Proof.
  intros H Hfresh. split.
  - intros i x. unfold deleteQRCode. cbn [fst]. rewrite filter_In.
    rewrite negb_true_iff, String.eqb_neq. tauto.
  - unfold addQRCode. cbn [fst snd].
    destruct (load_save (code :: loadQRCodes ls) ls H) as [E Q].
    unfold deleteQRCode. cbn [fst snd]. rewrite E.
    cbn [filter]. rewrite String.eqb_refl. cbn [negb].
    rewrite filter_all.
    + split; [reflexivity |]. apply (load_save _ _ Q).
    + intros x Hx. apply negb_true_iff, String.eqb_neq. apply Hfresh. exact Hx.
Qed.

Lemma deleteQRCode_after_add_witness :
  let old := {| id := "1"; value := "a"; description := ""; timestamp := 1;
                format := "qr_code" |} in
  let code := {| id := "2"; value := "b"; description := ""; timestamp := 2;
                 format := "ean_13" |} in
  let ls := {| qrCodes := Some (Json [old]); quota_exceeded := false |} in
  quota_exceeded ls = false /\
  (forall c, In c (loadQRCodes ls) -> id c <> id code) /\
  fst (deleteQRCode (id code) (snd (addQRCode code ls))) = [old].
Proof.
  intros old code ls.
  assert (F : forall c, In c (loadQRCodes ls) -> id c <> id code).
  { intros c [<- | []]. discriminate. }
  split; [reflexivity |]. split; [exact F |].
  apply (proj1 (proj2 (deleteQRCode_after_add code ls eq_refl F))).
Defined.

Lemma merge_idempotent (c : QRCodeData) (u : updates) :
  merge (merge c u) u = merge c u.
Proof.
  unfold merge. cbn.
  destruct (u_id u), (u_value u), (u_description u), (u_timestamp u), (u_format u);
    reflexivity.
Qed.

(** X12: updating twice is updating once.  When writes succeed,
    applying the same update to the same id a second time returns the
    same list and leaves the same storage, whatever the update sets,
    the id included. *)
Theorem updateQRCode_idempotent (i : string) (u : updates) (ls : localStorage) :
  quota_exceeded ls = false ->
  updateQRCode i u (snd (updateQRCode i u ls)) = updateQRCode i u ls.
Proof.
  intros H. unfold updateQRCode. cbn [fst snd].
  set (f := fun code => if String.eqb (id code) i then merge code u else code).
  destruct (load_save (map f (loadQRCodes ls)) ls H) as [E Q].
  rewrite E.
  assert (M : map f (map f (loadQRCodes ls)) = map f (loadQRCodes ls)).
  { rewrite map_map. apply map_ext. intros c. unfold f.
    destruct (String.eqb (id c) i) eqn:Ec.
    - destruct (String.eqb (id (merge c u)) i); [apply merge_idempotent | reflexivity].
    - rewrite Ec. reflexivity. }
  rewrite M. f_equal.
  unfold saveQRCodes, setItem. rewrite H. cbn [quota_exceeded]. reflexivity.
Qed.

Lemma updateQRCode_idempotent_witness :
  let c := {| id := "1"; value := "a"; description := ""; timestamp := 1;
              format := "qr_code" |} in
  let u := {| u_id := Some "2"%string; u_value := None;
              u_description := Some "x"%string; u_timestamp := None;
              u_format := None |} in
  let ls := {| qrCodes := Some (Json [c]); quota_exceeded := false |} in
  quota_exceeded ls = false /\
  updateQRCode "1" u (snd (updateQRCode "1" u ls)) = updateQRCode "1" u ls.
Proof.
  intros c u ls. split; [reflexivity |].
  apply (updateQRCode_idempotent "1" u ls). reflexivity.
Defined.

Lemma has_In (values : list string) (v : string) :
  has values v = true <-> In v values.
Proof.
  unfold has. rewrite existsb_exists. split.
  - intros (x & Hx & E). apply String.eqb_eq in E. subst. exact Hx.
  - intros H. exists v. split; [exact H | apply String.eqb_refl].
Qed.

Lemma imported_again_none (E I : list QRCodeData) :
  let U := filter (fun c => negb (has (map value E) (value c))) I in
  filter (fun c => negb (has (map value (E ++ U)) (value c))) I = [].
Proof.
  intros U. apply filter_none. intros c Hc.
  apply negb_false_iff, has_In. rewrite map_app, in_app_iff.
  destruct (has (map value E) (value c)) eqn:Hh.
  - left. apply has_In. exact Hh.
  - right. apply in_map. subst U. apply filter_In. split; [exact Hc |].
    rewrite Hh. reflexivity.
Qed.

(** X13: importing twice is importing once.  When writes succeed,
    importing the same file again returns the same list and leaves the
    same storage: the codes already stored stay in front, in order, and
    nothing is added the second time. *)
Theorem importQRCodes_idempotent (jsonData : text) (ls : localStorage) :
  quota_exceeded ls = false ->
  importQRCodes jsonData (snd (importQRCodes jsonData ls)) = importQRCodes jsonData ls /\
  exists added, fst (importQRCodes jsonData ls) = loadQRCodes ls ++ added.
Proof.
  intros H. destruct jsonData as [| | I]; unfold importQRCodes; cbn [fst snd].
  - split; [reflexivity |]. exists []. rewrite app_nil_r. reflexivity.
  - split; [reflexivity |]. exists []. rewrite app_nil_r. reflexivity.
  - split; [| eexists; reflexivity].
    set (U := filter (fun c => negb (has (map value (loadQRCodes ls)) (value c))) I).
    destruct (load_save (loadQRCodes ls ++ U) ls H) as [E Q].
    rewrite E.
    pose proof (imported_again_none (loadQRCodes ls) I) as N.
    cbv zeta in N. fold U in N. rewrite N.
    rewrite app_nil_r. f_equal.
    unfold saveQRCodes, setItem. rewrite H. cbn [quota_exceeded]. reflexivity.
Qed.

Lemma importQRCodes_idempotent_witness :
  let a := {| id := "1"; value := "a"; description := ""; timestamp := 1;
              format := "qr_code" |} in
  let b := {| id := "2"; value := "b"; description := ""; timestamp := 2;
              format := "qr_code" |} in
  let ls := {| qrCodes := Some (Json [a]); quota_exceeded := false |} in
  quota_exceeded ls = false /\
  importQRCodes (Json [b; a]) (snd (importQRCodes (Json [b; a]) ls))
    = importQRCodes (Json [b; a]) ls.
Proof.
  intros a b ls. split; [reflexivity |].
  apply (proj1 (importQRCodes_idempotent (Json [b; a]) ls eq_refl)).
Defined.

Lemma NoDup_append {A : Type} (l l' : list A) :
  NoDup l -> NoDup l' -> (forall x, In x l -> ~ In x l') -> NoDup (l ++ l').
Proof.
  intros Hl Hl' Hd. induction Hl as [| a l Ha Hl IH]; simpl.
  - exact Hl'.
  - constructor.
    + rewrite in_app_iff. intros [H | H].
      * exact (Ha H).
      * exact (Hd a (or_introl eq_refl) H).
    + apply IH. intros x Hx. apply Hd. right. exact Hx.
Qed.

(** Dropping codes keeps their values distinct. *)
Lemma filter_values_distinct (keep : QRCodeData -> bool) (codes : list QRCodeData) :
  NoDup (map value codes) -> NoDup (map value (filter keep codes)).
Proof.
  intros H. induction codes as [| c codes IH]; [constructor |].
  cbn [map] in H. apply NoDup_cons_iff in H. destruct H as [Hc Hl].
  cbn [filter]. destruct (keep c); [| exact (IH Hl)].
  cbn [map]. apply NoDup_cons; [| exact (IH Hl)].
  intros Hin. apply Hc. apply in_map_iff in Hin.
  destruct Hin as (x & Ex & Hx). apply filter_In in Hx.
  rewrite <- Ex. apply in_map. apply Hx.
Qed.

(** X14: duplicates by value.  If no two stored codes share a value and
    no two codes of the file share one, no two codes share a value after
    the import.  The file is only compared with the storage: a new code
    that the file holds twice is stored twice. *)
Theorem importQRCodes_distinct_values (imported : list QRCodeData) (ls : localStorage) :
  NoDup (map value (loadQRCodes ls)) ->
  NoDup (map value imported) ->
  NoDup (map value (fst (importQRCodes (Json imported) ls))) /\
  (forall c, has (map value (loadQRCodes ls)) (value c) = false ->
     fst (importQRCodes (Json [c; c]) ls) = loadQRCodes ls ++ [c; c]).
Proof.
  intros HE HI. split.
  - unfold importQRCodes. cbn [fst]. rewrite map_app.
    apply NoDup_append; [exact HE | apply filter_values_distinct; exact HI |].
    intros v Hv Hv'. apply in_map_iff in Hv'. destruct Hv' as (c & <- & Hc).
    apply filter_In in Hc. destruct Hc as [_ Hc].
    apply negb_true_iff in Hc.
    apply has_In in Hv. rewrite Hv in Hc. discriminate.
  - intros c Hc. unfold importQRCodes. cbn [fst filter]. rewrite Hc. reflexivity.
Qed.

Lemma importQRCodes_distinct_values_witness :
  let a := {| id := "1"; value := "a"; description := ""; timestamp := 1;
              format := "qr_code" |} in
  let b := {| id := "2"; value := "b"; description := ""; timestamp := 2;
              format := "qr_code" |} in
  let ls := {| qrCodes := Some (Json [a]); quota_exceeded := false |} in
  NoDup (map value (loadQRCodes ls)) /\ NoDup (map value [b; a]) /\
  NoDup (map value (fst (importQRCodes (Json [b; a]) ls))).
Proof.
  intros a b ls.
  assert (N1 : NoDup (map value (loadQRCodes ls))).
  { repeat constructor. simpl. tauto. }
  assert (N2 : NoDup (map value [b; a])).
  { repeat constructor; simpl; intuition discriminate. }
  split; [exact N1 |]. split; [exact N2 |].
  apply (proj1 (importQRCodes_distinct_values [b; a] ls N1 N2)).
Defined.

(** X15: export, then import.  With nothing stored the export only
    raises an alert and writes no file.  Otherwise it writes one file
    holding the stored codes, and importing that file where nothing is
    stored restores exactly those codes, in order, while importing it
    where it came from changes nothing. *)
Theorem export_then_import (today : string) (ls fresh : localStorage) :
  loadQRCodes fresh = [] -> quota_exceeded fresh = false ->
  (loadQRCodes ls = [] -> exportQRCodes today ls = Alert "No QR codes to export") /\
  (loadQRCodes ls <> [] ->
     exists content,
       exportQRCodes today ls = Download ("qrcode-export-" ++ today ++ ".json") content /\
       fst (importQRCodes content fresh) = loadQRCodes ls /\
       loadQRCodes (snd (importQRCodes content fresh)) = loadQRCodes ls /\
       fst (importQRCodes content ls) = loadQRCodes ls).
Proof.
  intros Hf Hq. unfold exportQRCodes. split.
  - intros ->. reflexivity.
  - intros N. destruct (loadQRCodes ls) as [| c l] eqn:E; [contradiction |].
    cbn [List.length Nat.eqb]. eexists. split; [reflexivity |].
    unfold importQRCodes. cbn [fst snd]. rewrite Hf, E. cbn [map app].
    rewrite (filter_all _ (c :: l)) by reflexivity.
    split; [reflexivity |]. split; [apply (load_save _ _ Hq) |].
    rewrite (filter_none _ (c :: l)); [apply (app_nil_r (c :: l)) |].
    intros x Hx. apply negb_false_iff, has_In. apply (in_map value) in Hx. exact Hx.
Qed.

Lemma export_then_import_witness :
  let a := {| id := "1"; value := "a"; description := "d"; timestamp := 1;
              format := "qr_code" |} in
  let ls := {| qrCodes := Some (Json [a; a]); quota_exceeded := true |} in
  let fresh := {| qrCodes := None; quota_exceeded := false |} in
  loadQRCodes fresh = [] /\ quota_exceeded fresh = false /\
  exists content,
    exportQRCodes "2025-01-31" ls = Download "qrcode-export-2025-01-31.json" content /\
    fst (importQRCodes content fresh) = [a; a].
Proof.
  intros a ls fresh. split; [reflexivity |]. split; [reflexivity |].
  destruct (proj2 (export_then_import "2025-01-31" ls fresh eq_refl eq_refl))
    as (content & E1 & E2 & _).
  - discriminate.
  - exists content. split; [exact E1 | exact E2].
Defined.

End StorageProperties.

(** ** The application *)

Section AppProperties.
Import Storage App.

Lemma step_in_sync (w : world) (e : event) :
  in_sync w -> in_sync (step w e).
Proof.
  destruct w as [st ls]. unfold in_sync. cbn [fst snd]. intros [Hc Hq].
  destruct e; cbn [step fst snd]; try (split; assumption).
  - (* Scan *)
    unfold handleScan. destruct detectedCodes as [| d ds]; [split; assumption |].
    unfold addQRCode. cbn [fst snd codes setIsScanning setQrCodes].
    destruct (load_save (Build_QRCodeData (JS.Number_toString now) (rawValue d)
                           "" now (detectedFormat d) :: loadQRCodes ls) ls Hq) as [E Q].
    rewrite E. split; [reflexivity | exact Q].
  - (* Save *)
    unfold saveDescription, updateQRCode. cbn [fst snd codes setEditingId setQrCodes].
    match goal with |- context [saveQRCodes ?l ls] =>
      destruct (load_save l ls Hq) as [E Q] end.
    rewrite E. split; [reflexivity | exact Q].
  - (* Delete *)
    unfold deleteCode, deleteQRCode. cbn [fst snd codes setQrCodes].
    match goal with |- context [saveQRCodes ?l ls] =>
      destruct (load_save l ls Hq) as [E Q] end.
    rewrite E. split; [reflexivity | exact Q].
  - (* Import *)
    unfold handleImport. destruct content as [| | | l]; try (split; assumption).
    destruct (negb (Nat.eqb (List.length (filter invalid_entry l)) 0));
      [split; assumption |].
    unfold importQRCodes.
    match goal with |- context [saveQRCodes ?l' ls] =>
      destruct (load_save l' ls Hq) as [E Q] end.
    match goal with |- context [if ?b then _ else _] => destruct b end;
      cbn [fst snd codes setIsImporting raise setQrCodes]; rewrite E;
      (split; [reflexivity | exact Q]).
  - (* Add *)
    unfold handleManualAdd. cbn [fst snd].
    destruct (String.eqb (Trim.trim (manualValue st)) ""); [split; assumption |].
    unfold addQRCode.
    cbn [fst snd codes raise setManualFormat setManualValue setShowManualEntry setQrCodes].
    match goal with |- context [saveQRCodes ?l' ls] =>
      destruct (load_save l' ls Hq) as [E Q] end.
    rewrite E. split; [reflexivity | exact Q].
Qed.

(** X16: the list on screen mirrors the storage.  From the mount on,
    after any sequence of scans, edits, saves, deletions, imports and
    manual entries, the list of codes the application holds is the list
    a reload of the storage gives, as long as the storage accepts
    writes. *)
Theorem app_mirrors_storage (events : list event) (st : state) (ls : localStorage) :
  quota_exceeded ls = false ->
  let w := run events (mount (st, ls)) in
  codes (fst w) = loadQRCodes (snd w).
Proof.
  intros Hq w.
  assert (I : in_sync w); [| exact (proj1 I)].
  subst w. unfold run.
  assert (I0 : in_sync (mount (st, ls))) by (split; [reflexivity | exact Hq]).
  generalize dependent (mount (st, ls)). clear st ls Hq.
  induction events as [| e events IH]; intros w I0.
  - exact I0.
  - cbn [fold_left]. apply IH. apply step_in_sync. exact I0.
Qed.

Lemma app_mirrors_storage_witness :
  let ls := {| qrCodes := Some Invalid; quota_exceeded := false |} in
  let events := [TypeValue "  abc "; Add 1700000000000;
                 Scan [{| rawValue := "otpauth://totp/x?secret=AB";
                          detectedFormat := "qr_code" |}] 1700000000001;
                 Edit "1700000000000" ""; TypeDescription "note";
                 Save "1700000000000"; Delete "1700000000001"] in
  quota_exceeded ls = false /\
  map value (loadQRCodes (snd (run events (mount (initial, ls))))) = ["abc"%string] /\
  map description (codes (fst (run events (mount (initial, ls))))) = ["note"%string].
Proof.
  intros ls events. split; [reflexivity |]. split; [reflexivity |].
  rewrite (app_mirrors_storage events initial ls eq_refl). reflexivity.
Defined.

(** X17: saving a description touches descriptions only.  When the
    write succeeds, [saveDescription] leaves the ids, values,
    timestamps and formats of the stored codes, and so their number and
    order, as they were; afterwards every code with the id given has
    the description typed, and editing is over. *)
Theorem saveDescription_only_description (i : string) (st : state) (ls : localStorage) :
  quota_exceeded ls = false ->
  let w' := saveDescription i (st, ls) in
  let l := loadQRCodes ls in
  let l' := loadQRCodes (snd w') in
  map id l' = map id l /\ map value l' = map value l /\
  map timestamp l' = map timestamp l /\ map format l' = map format l /\
  (forall c, In c l' -> id c = i -> description c = editDescription st) /\
  (forall c, In c l' -> id c <> i -> In c l) /\
  codes (fst w') = l' /\ editingId (fst w') = None.
Proof.
  intros Hq w' l l'. subst w' l'. unfold saveDescription, updateQRCode.
  cbn [fst snd codes editingId setEditingId setQrCodes].
  match goal with |- context [saveQRCodes ?x ls] =>
    destruct (load_save x ls Hq) as [E _] end.
  rewrite E. fold l.
  repeat split.
  - rewrite map_map. apply map_ext. intros c. destruct (String.eqb (id c) i); reflexivity.
  - rewrite map_map. apply map_ext. intros c. destruct (String.eqb (id c) i); reflexivity.
  - rewrite map_map. apply map_ext. intros c. destruct (String.eqb (id c) i); reflexivity.
  - rewrite map_map. apply map_ext. intros c. destruct (String.eqb (id c) i); reflexivity.
  - intros c Hc Hi. apply in_map_iff in Hc. destruct Hc as (c0 & Ec & _).
    destruct (String.eqb_spec (id c0) i) as [E0 | N0].
    + subst c. reflexivity.
    + subst c. contradiction.
  - intros c Hc Hi. apply in_map_iff in Hc. destruct Hc as (c0 & Ec & H0).
    destruct (String.eqb_spec (id c0) i) as [E0 | N0].
    + subst c. cbn in Hi. contradiction.
    + subst c. exact H0.
Qed.

Lemma saveDescription_only_description_witness :
  let a := {| id := "1"; value := "a"; description := ""; timestamp := 1;
              format := "qr_code" |} in
  let ls := {| qrCodes := Some (Json [a]); quota_exceeded := false |} in
  let st := setEditDescription "note" initial in
  quota_exceeded ls = false /\
  map value (loadQRCodes (snd (saveDescription "1" (st, ls)))) = ["a"%string].
Proof.
  intros a ls st. split; [reflexivity |].
  apply (proj1 (proj2 (saveDescription_only_description "1" st ls eq_refl))).
Defined.

(** X18: what the import reports.  When the list on screen mirrors
    the storage and the file holds an array whose every entry has an id,
    a value and a numeric timestamp, the import adds the entries whose
    value is not stored yet, behind the stored codes, and raises one
    toast: with the number of codes added when there is one at least,
    saying that nothing was added otherwise.  A file with no text, with a
    syntax error, holding no array, or an array with an entry that lacks
    an id, a value or a numeric timestamp, changes neither the list nor
    the storage and raises the toast of a failed import. *)
Theorem handleImport_reports_added (content : file) (st : state) (ls : localStorage) :
  codes st = loadQRCodes ls ->
  let st' := fst (handleImport content (st, ls)) in
  (forall items, content = Entries items -> filter invalid_entry items = [] ->
     let added := filter (fun c => negb (has (map value (loadQRCodes ls)) (value c)))
                    (map code_of items) in
     let n := Z.of_nat (List.length added) in
     codes st' = loadQRCodes ls ++ added /\
     isImporting st' = false /\
     toasts st' =
       (if 0 <? n then
          {| title := "Import Successful";
             message := "Added " ++ JS.Number_toString n ++ " new codes to your collection.";
             variant := "default" |}
        else
          {| title := "Import Complete";
             message := "No new codes were added. All codes already exist in your collection.";
             variant := "default" |}) :: toasts st) /\
  ((forall items, content = Entries items ->
      exists e, In e items /\ invalid_entry e = true) ->
     snd (handleImport content (st, ls)) = ls /\
     codes st' = codes st /\
     isImporting st' = false /\
     exists m, toasts st' =
       {| title := "Import Failed"; message := m; variant := "destructive" |}
       :: toasts st) /\
  (forall e, e_timestamp e = None -> invalid_entry e = true).
Proof.
  intros Hs st'. subst st'. split; [| split].
  - intros items -> Hv added n. unfold handleImport.
    rewrite Hv. cbn [List.length Nat.eqb negb].
    unfold importQRCodes. fold added. rewrite Hs.
    assert (C : Z.of_nat (List.length (loadQRCodes ls ++ added))
                - Z.of_nat (List.length (loadQRCodes ls)) = n).
    { rewrite length_app. subst n. lia. }
    rewrite C. destruct (0 <? n); cbn; split; try split; reflexivity.
  - intros H. unfold handleImport.
    destruct content as [| | | items];
      try (cbn; split; [reflexivity |]; split; [reflexivity |];
           split; [reflexivity |]; eexists; reflexivity).
    destruct (H items eq_refl) as (e & He & Hi).
    assert (F : filter invalid_entry items <> []).
    { intros E. assert (X : In e (filter invalid_entry items))
        by (apply filter_In; split; assumption).
      rewrite E in X. exact X. }
    destruct (filter invalid_entry items) as [| x l]; [contradiction |].
    cbn. split; [reflexivity |]. split; [reflexivity |].
    split; [reflexivity |]. eexists; reflexivity.
  - intros e H. unfold invalid_entry. rewrite H. apply orb_true_r.
Qed.

Lemma handleImport_reports_added_witness :
  let a := {| id := "1"; value := "a"; description := ""; timestamp := 1;
              format := "qr_code" |} in
  let ea := {| e_id := "1"; e_value := "a"; e_description := "";
               e_timestamp := Some 1; e_format := "qr_code" |} in
  let eb := {| e_id := "2"; e_value := "b"; e_description := "";
               e_timestamp := Some 2; e_format := "qr_code" |} in
  let ec := {| e_id := "3"; e_value := "c"; e_description := "";
               e_timestamp := None; e_format := "qr_code" |} in
  let ls := {| qrCodes := Some (Json [a]); quota_exceeded := false |} in
  let st := setQrCodes [a] initial in
  codes st = loadQRCodes ls /\
  map value (codes (fst (handleImport (Entries [eb; ea]) (st, ls)))) = ["a"; "b"]%string /\
  codes (fst (handleImport (Entries [eb; ec]) (st, ls))) = [a].
Proof.
  intros a ea eb ec ls st. split; [reflexivity |]. split.
  - rewrite (proj1 (proj1 (handleImport_reports_added (Entries [eb; ea]) st ls eq_refl)
                      [eb; ea] eq_refl eq_refl)).
    reflexivity.
  - assert (F : forall items, Entries [eb; ec] = Entries items ->
                exists e, In e items /\ invalid_entry e = true).
    { intros items E. injection E as <-. exists ec.
      split; [right; left; reflexivity | reflexivity]. }
    rewrite (proj1 (proj2 (proj1 (proj2
               (handleImport_reports_added (Entries [eb; ec]) st ls eq_refl)) F))).
    reflexivity.
Defined.

End AppProperties.

(** ** Manual entry *)

Section ManualEntry.
Import Storage App.
Import Trim.

Lemma trimStart_head_n (n : nat) (l : list ascii) :
  (List.length l <= n)%nat -> head_ok (Trim.trimStart l).
Proof.
  revert l. induction n as [| n IH]; intros l Hn.
  - destruct l; [exact I | simpl in Hn; lia].
  - destruct l as [| a r1]; [exact I |]. cbn [Trim.trimStart].
    destruct (Trim.space1 a) eqn:S1; [apply IH; simpl in Hn; lia |].
    destruct r1 as [| b r2]; [exact S1 |].
    destruct (Trim.space2 a b); [apply IH; simpl in Hn; lia |].
    destruct r2 as [| c r3]; [exact S1 |].
    destruct (Trim.space3 a b c); [apply IH; simpl in Hn; lia | exact S1].
Qed.

Lemma trimEnd_rev_head_n (n : nat) (l : list ascii) :
  (List.length l <= n)%nat -> head_ok (Trim.trimEnd_rev l).
Proof.
  revert l. induction n as [| n IH]; intros l Hn.
  - destruct l; [exact I | simpl in Hn; lia].
  - destruct l as [| a r1]; [exact I |]. cbn [Trim.trimEnd_rev].
    destruct (Trim.space1 a) eqn:S1; [apply IH; simpl in Hn; lia |].
    destruct r1 as [| b r2]; [exact S1 |].
    destruct (Trim.space2 b a); [apply IH; simpl in Hn; lia |].
    destruct r2 as [| c r3]; [exact S1 |].
    destruct (Trim.space3 c b a); [apply IH; simpl in Hn; lia | exact S1].
Qed.

Lemma trimEnd_rev_suffix_n (n : nat) (l : list ascii) :
  (List.length l <= n)%nat -> exists p, l = p ++ Trim.trimEnd_rev l.
Proof.
  revert l. induction n as [| n IH]; intros l Hn.
  - destruct l; [exists []; reflexivity | simpl in Hn; lia].
  - destruct l as [| a r1]; [exists []; reflexivity |]. cbn [Trim.trimEnd_rev].
    destruct (Trim.space1 a).
    { destruct (IH r1 ltac:(simpl in Hn; lia)) as [p E].
      exists (a :: p). simpl. rewrite <- E. reflexivity. }
    destruct r1 as [| b r2]; [exists []; reflexivity |].
    destruct (Trim.space2 b a).
    { destruct (IH r2 ltac:(simpl in Hn; lia)) as [p E].
      exists (a :: b :: p). simpl. rewrite <- E. reflexivity. }
    destruct r2 as [| c r3]; [exists []; reflexivity |].
    destruct (Trim.space3 c b a).
    { destruct (IH r3 ltac:(simpl in Hn; lia)) as [p E].
      exists (a :: b :: c :: p). simpl. rewrite <- E. reflexivity. }
    exists []. reflexivity.
Qed.

(** A trimmed text neither starts nor ends with an ASCII white space
    character. *)
Lemma trim_ends (s : string) :
  let t := list_ascii_of_string (Trim.trim s) in
  head_ok t /\ head_ok (rev t).
Proof.
  intros t. subst t. unfold Trim.trim.
  rewrite list_ascii_of_string_of_list_ascii.
  set (X := Trim.trimStart (list_ascii_of_string s)).
  assert (HX : head_ok X) by (apply (trimStart_head_n _ _ (le_n _))).
  split.
  - destruct (trimEnd_rev_suffix_n _ (rev X) (le_n _)) as [p E].
    apply (f_equal (@rev ascii)) in E. rewrite rev_involutive, rev_app_distr in E.
    destruct (rev (Trim.trimEnd_rev (rev X))) as [| a r]; [exact I |].
    rewrite E in HX. exact HX.
  - rewrite rev_involutive. apply (trimEnd_rev_head_n _ _ (le_n _)).
Qed.

(** X19: manual entry.  A value that is blank once trimmed adds
    nothing, changes no stored code and leaves the dialog as it is.
    Otherwise one code is put in front of the stored ones: its value is
    the text typed without the white space around it, so not empty and
    neither starting nor ending with a space, tab or line break, its
    format is the one selected, and its id is the decimal time. *)
Theorem handleManualAdd_trimmed (now : Z) (st : state) (ls : localStorage) :
  let w' := handleManualAdd now (st, ls) in
  (Trim.trim (manualValue st) = EmptyString ->
     snd w' = ls /\ codes (fst w') = codes st /\
     showManualEntry (fst w') = showManualEntry st) /\
  (Trim.trim (manualValue st) <> EmptyString ->
     exists c, codes (fst w') = c :: loadQRCodes ls /\
       value c = Trim.trim (manualValue st) /\
       value c <> EmptyString /\
       head_ok (list_ascii_of_string (value c)) /\
       head_ok (rev (list_ascii_of_string (value c))) /\
       format c = manualFormat st /\
       id c = JS.Number_toString now /\
       showManualEntry (fst w') = false).
Proof.
  cbn zeta. unfold handleManualAdd.
  destruct (String.eqb_spec (Trim.trim (manualValue st)) EmptyString) as [E | N].
  - split; [| contradiction]. intros _. repeat split.
  - split; [contradiction |]. intros _. unfold addQRCode. cbn [fst snd].
    eexists. split; [reflexivity |]. cbn [value format id].
    split; [reflexivity |]. split; [exact N |].
    destruct (trim_ends (manualValue st)) as [H1 H2].
    repeat split; assumption.
Qed.

End ManualEntry.
